(** * InteractionIntegral: the interaction-integral postprocessor

    A shallow embedding of [InteractionIntegral] (the element-integral
    postprocessor that evaluates the interaction integral at one point of a
    crack front) and the properties its specification states about it.

    [Real] is the C++ [double]: it is embedded as Rocq's primitive binary64
    float, so every arithmetic step below rounds, overflows and produces
    infinities and NaN exactly as the compiled code does (round to nearest
    even, no fused multiply-add).  [unsigned int] is embedded as [Z] with the
    wrap-around modulo 2^32 written out. *)

From Stdlib Require Import ZArith List Bool Lia Floats String.
Import ListNotations.

(* ================================================================== *)
(** * Part I: the embedding *)

(* ================================================================== *)
(** ** Scalars *)

Definition Real := float.

Local Open Scope float_scope.

(** Both signed zeros. *)
Definition is_zero (x : Real) : bool :=
  match Prim2SF x with S754_zero _ => true | _ => false end.

(** Neither an infinity nor NaN. *)
Definition is_finite (x : Real) : bool :=
  match Prim2SF x with
  | S754_zero _ | S754_finite _ _ _ => true
  | _ => false
  end.

(** An infinity or NaN: what a division by zero produces. *)
Definition is_inf_or_nan (x : Real) : bool := negb (is_finite x).

(** A usable divisor: neither zero nor NaN. *)
Definition is_divisor (x : Real) : bool :=
  match Prim2SF x with
  | S754_infinity _ | S754_finite _ _ _ => true
  | _ => false
  end.

(* ================================================================== *)
(** ** Results of a call

    A member function either returns, or stops the run through
    [mooseError], or runs into undefined behaviour (a pointer that is null
    or has no live target is dereferenced, an array is read past its
    end). *)

Inductive outcome (A : Type) : Type :=
| Ok (a : A)
| MooseError (msg : string)
| Fault.
Arguments Ok {A} a.
Arguments MooseError {A} msg.
Arguments Fault {A}.

Definition obind {A B} (m : outcome A) (k : A -> outcome B) : outcome B :=
  match m with
  | Ok a => k a
  | MooseError msg => MooseError msg
  | Fault => Fault
  end.

Notation "' pat <- m ;; k" := (obind m (fun pat => k))
  (at level 61, pat pattern, m at next level, right associativity).
Notation "x <- m ;; k" := (obind m (fun x => k))
  (at level 61, m at next level, right associativity).

(** [v[i]] on a [std::vector]. *)
Definition vector_at {A} (v : list A) (i : nat) : outcome A :=
  match nth_error v i with
  | Some a => Ok a
  | None => Fault
  end.

(** [unsigned int] subtraction. *)
Definition UINT_MOD : Z := 4294967296.
Definition uint_sub (a b : Z) : Z := ((a - b) mod UINT_MOD)%Z.
Definition is_uint (a : Z) : Prop := (0 <= a < UINT_MOD)%Z.

(* ================================================================== *)
(** ** Vectors and tensors *)

(** libMesh's [RealVectorValue] / [RealGradient]: three components. *)
Record RealVectorValue : Type := mkVec { vx : Real; vy : Real; vz : Real }.

Definition vec_zero : RealVectorValue := mkVec 0 0 0.

(** [v(j)]; the code only reads components below the space dimension. *)
Definition vec_get (v : RealVectorValue) (j : nat) : Real :=
  match j with
  | 0%nat => vx v
  | 1%nat => vy v
  | 2%nat => vz v
  | _ => 0
  end.

(** [v(j) = x]. *)
Definition vec_set (v : RealVectorValue) (j : nat) (x : Real) : RealVectorValue :=
  match j with
  | 0%nat => mkVec x (vy v) (vz v)
  | 1%nat => mkVec (vx v) x (vz v)
  | 2%nat => mkVec (vx v) (vy v) x
  | _ => v
  end.

(** [SymmTensor]: the six independent components of a symmetric tensor. *)
Record SymmTensor : Type := mkSymm {
  xx : Real; yy : Real; zz : Real; xy : Real; yz : Real; xz : Real
}.

Definition symm_zero : SymmTensor := mkSymm 0 0 0 0 0 0.

(** Modelled from the spec: [ColumnMajorMatrix] is declared outside the
    sources at hand.  The spec calls it a dense 3x3 matrix; the default
    constructor used throughout [computeQpIntegral] makes a zero-filled 3x3
    matrix whose entry [(i, j)] is stored at position [j * 3 + i]. *)
Record ColumnMajorMatrix : Type := mkCM {
  cm0 : Real; cm1 : Real; cm2 : Real;
  cm3 : Real; cm4 : Real; cm5 : Real;
  cm6 : Real; cm7 : Real; cm8 : Real
}.

Definition cm_zero : ColumnMajorMatrix := mkCM 0 0 0 0 0 0 0 0 0.

Definition cm_raw (m : ColumnMajorMatrix) (k : nat) : Real :=
  match k with
  | 0%nat => cm0 m | 1%nat => cm1 m | 2%nat => cm2 m
  | 3%nat => cm3 m | 4%nat => cm4 m | 5%nat => cm5 m
  | 6%nat => cm6 m | 7%nat => cm7 m | 8%nat => cm8 m
  | _ => 0
  end.

Definition cm_raw_set (m : ColumnMajorMatrix) (k : nat) (x : Real)
  : ColumnMajorMatrix :=
  let '(mkCM a0 a1 a2 a3 a4 a5 a6 a7 a8) := m in
  match k with
  | 0%nat => mkCM x a1 a2 a3 a4 a5 a6 a7 a8
  | 1%nat => mkCM a0 x a2 a3 a4 a5 a6 a7 a8
  | 2%nat => mkCM a0 a1 x a3 a4 a5 a6 a7 a8
  | 3%nat => mkCM a0 a1 a2 x a4 a5 a6 a7 a8
  | 4%nat => mkCM a0 a1 a2 a3 x a5 a6 a7 a8
  | 5%nat => mkCM a0 a1 a2 a3 a4 x a6 a7 a8
  | 6%nat => mkCM a0 a1 a2 a3 a4 a5 x a7 a8
  | 7%nat => mkCM a0 a1 a2 a3 a4 a5 a6 x a8
  | 8%nat => mkCM a0 a1 a2 a3 a4 a5 a6 a7 x
  | _ => m
  end.

(** [m(i, j)] and [m(i, j) = x]. *)
Definition cm_get (m : ColumnMajorMatrix) (i j : nat) : Real :=
  cm_raw m (j * 3 + i).
Definition cm_set (m : ColumnMajorMatrix) (i j : nat) (x : Real)
  : ColumnMajorMatrix :=
  cm_raw_set m (j * 3 + i) x.

(** Modelled from the spec: [operator*], the matrix product the spec writes
    [dq . stress]: every entry of a zero-filled result accumulates
    [lhs(i, k) * rhs(k, j)] for [k = 0, 1, 2], rows outermost. *)
Definition cm_mul (lhs rhs : ColumnMajorMatrix) : ColumnMajorMatrix :=
  fold_left (fun ret i =>
    fold_left (fun ret j =>
      fold_left (fun ret k =>
        cm_set ret i j (cm_get ret i j + cm_get lhs i k * cm_get rhs k j))
        (seq 0 3) ret)
      (seq 0 3) ret)
    (seq 0 3) cm_zero.

(** Modelled from the spec: [doubleContraction], the spec's [A : B]: the sum
    of the products of matching entries, accumulated from [0.0] column by
    column. *)
Definition cm_doubleContraction (lhs rhs : ColumnMajorMatrix) : Real :=
  fold_left (fun value j =>
    fold_left (fun value i => value + cm_get lhs i j * cm_get rhs i j)
      (seq 0 3) value)
    (seq 0 3) 0.

Definition cm_transpose (m : ColumnMajorMatrix) : ColumnMajorMatrix :=
  mkCM (cm0 m) (cm3 m) (cm6 m) (cm1 m) (cm4 m) (cm7 m) (cm2 m) (cm5 m) (cm8 m).

(** Matrix times vector, component [i] accumulated from [0.0]. *)
Definition cm_apply (m : ColumnMajorMatrix) (v : RealVectorValue)
  : RealVectorValue :=
  let row i := fold_left (fun acc k => acc + cm_get m i k * vec_get v k)
                 (seq 0 3) 0 in
  mkVec (row 0%nat) (row 1%nat) (row 2%nat).

Definition cm_forall (P : Real -> bool) (m : ColumnMajorMatrix) : bool :=
  P (cm0 m) && P (cm1 m) && P (cm2 m) && P (cm3 m) && P (cm4 m) &&
  P (cm5 m) && P (cm6 m) && P (cm7 m) && P (cm8 m).

Definition vec_forall (P : Real -> bool) (v : RealVectorValue) : bool :=
  P (vx v) && P (vy v) && P (vz v).

Definition symm_forall (P : Real -> bool) (t : SymmTensor) : bool :=
  P (xx t) && P (yy t) && P (zz t) && P (xy t) && P (yz t) && P (xz t).

(* ================================================================== *)
(** ** The collaborators of the postprocessor *)

Definition Node := nat.

(** The current element, as far as the postprocessor looks at it. *)
Record Elem : Type := mkElem {
  n_nodes : nat;
  dim : nat;
  get_node : nat -> Node
}.

(** The crack-front definition user object.  Its implementation is not part
    of the sources at hand; the postprocessor only calls the member
    functions below, each with the crack-front point index. *)
Record CrackFrontDefinition : Type := mkCFD {
  treatAs2D : bool;
  rotateVectorToCrackFrontCoords : RealVectorValue -> Z -> RealVectorValue;
  rotateToCrackFrontCoords : ColumnMajorMatrix -> Z -> ColumnMajorMatrix;
  getCrackFrontForwardSegmentLength : Z -> Real;
  getCrackFrontBackwardSegmentLength : Z -> Real;
  getCrackFrontTangentialStrain : Z -> Real;
  DomainIntegralQFunction : Z -> Z -> Node -> Real;
  DomainIntegralTopologicalQFunction : Z -> Z -> Node -> Real
}.

(** A crack-front definition whose local frame at every point is given by
    one rotation matrix [R]: vectors become [R v], tensors [R T R^T]. *)
Definition frame_of_rotation (R : ColumnMajorMatrix) (is2d : bool)
    (fwd bwd strain : Real) (qgeom qtopo : Z -> Z -> Node -> Real)
  : CrackFrontDefinition :=
  mkCFD is2d
    (fun v _ => cm_apply R v)
    (fun T _ => cm_mul (cm_mul R T) (cm_transpose R))
    (fun _ => fwd) (fun _ => bwd) (fun _ => strain) qgeom qtopo.

(** The two weight-function generators ([MooseEnum] "Geometry Topology"). *)
Inductive QFunctionType : Type := GEOMETRY | TOPOLOGY.

Definition QFunctionType_eqb (a b : QFunctionType) : bool :=
  match a, b with
  | GEOMETRY, GEOMETRY | TOPOLOGY, TOPOLOGY => true
  | _, _ => false
  end.

(** One invocation of a weight-function generator, with its arguments:
    crack-front point index, ring index, node. *)
Inductive QCall : Type :=
| CallDomainIntegralQFunction (point ring : Z) (node : Node)
| CallDomainIntegralTopologicalQFunction (point ring : Z) (node : Node).

Definition perform (cfd : CrackFrontDefinition) (c : QCall) : Real :=
  match c with
  | CallDomainIntegralQFunction p r n => DomainIntegralQFunction cfd p r n
  | CallDomainIntegralTopologicalQFunction p r n =>
      DomainIntegralTopologicalQFunction cfd p r n
  end.

(** The variables the postprocessor may couple to. *)
Inductive CoupledVar : Type := disp_x | disp_y | disp_z | temp.

(** A [VariableGradient] reference member: bound at construction either to
    the gradient of a coupled variable or to the framework's [_grad_zero]. *)
Inductive GradRef : Type :=
| coupledGradient (v : CoupledVar)
| grad_zero_ref.

(** A [MaterialProperty<Real>] pointer member. *)
Inductive RealPropPtr : Type :=
| NULL
| RealProperty.

(** What the framework holds while it is positioned on one element: the
    element, its quadrature rule, the first-order Lagrange shape functions
    that [FEBase::build] and [reinit] produce for it, and the values at the
    quadrature points of the material properties and coupled gradients the
    members of the postprocessor refer to.  The arrays that are indexed by
    a quadrature point ([_JxW], [_coord], the material properties, the
    coupled gradients, and [phi[i]] and [dphi[i]] for every [i]) have
    [qrule_n_points] entries: the functions below give the entries, and
    [at_quadrature_point] is the bound of the index. *)
Record Assembly : Type := mkAssembly {
  _current_elem : Elem;
  qrule_n_points : nat;
  _JxW : nat -> Real;
  _coord : nat -> Real;
  fe_get_phi : nat -> nat -> Real;
  fe_get_dphi : nat -> nat -> RealVectorValue;
  coupled_gradient_values : CoupledVar -> nat -> RealVectorValue;
  _stress : nat -> SymmTensor;
  _strain : nat -> SymmTensor;
  _aux_stress : nat -> ColumnMajorMatrix;
  _aux_grad_disp : nat -> ColumnMajorMatrix;
  thermal_expansion_coef_values : nat -> Real
}.

(** The index [qp] of a read [array[qp]] of one of the arrays that have one
    entry for each quadrature point: past the end the read is undefined. *)
Definition at_quadrature_point (asm : Assembly) (qp : nat) : outcome nat :=
  if (qp <? qrule_n_points asm)%nat then Ok qp else Fault.

(** [ref[qp]] for a gradient reference. *)
Definition grad_at (asm : Assembly) (r : GradRef) (qp : nat) : RealVectorValue :=
  match r with
  | coupledGradient v => coupled_gradient_values asm v qp
  | grad_zero_ref => vec_zero
  end.

(** Dereferencing a property pointer and reading entry [qp]. *)
Definition prop_at (asm : Assembly) (p : RealPropPtr) (qp : nat) : outcome Real :=
  match p with
  | NULL => Fault
  | RealProperty => Ok (thermal_expansion_coef_values asm qp)
  end.

(* ================================================================== *)
(** ** The object *)

(** The members of [InteractionIntegral], in the order of the constructor's
    initialiser list, followed by the transient members and the accumulator
    inherited from [ElementIntegralPostprocessor].  The material properties
    [_stress], [_strain], [_aux_stress], [_aux_grad_disp] and the gradients
    of [disp_x] and [disp_y] are references into the framework's storage and
    are read from the [Assembly].  The pointers [_phi_curr_elem] and
    [_dphi_curr_elem] are [Some] while they point to the arrays of a live
    [FEBase] object, and [None] otherwise: before the first assignment, and
    once the object they pointed into has been destroyed. *)
Record InteractionIntegral : Type := mkII {
  _crack_front_definition : CrackFrontDefinition;
  _has_crack_front_point_index : bool;
  _crack_front_point_index : Z;
  _treat_as_2d : bool;
  _grad_disp_z : GradRef;
  _has_temp : bool;
  _grad_temp : GradRef;
  _current_instantaneous_thermal_expansion_coef : RealPropPtr;
  _K_factor : Real;
  _has_symmetry_plane : bool;
  _t_stress : bool;
  _poissons_ratio : Real;
  _ring_index : Z;
  _ring_first : option Z;
  _q_function_type : QFunctionType;
  _q_curr_elem : list Real;
  _phi_curr_elem : option (nat -> nat -> Real);
  _dphi_curr_elem : option (nat -> nat -> RealVectorValue);
  _qp : nat;
  _integral_value : Real
}.

(** The object with its mutable members replaced. *)
Definition with_members (self : InteractionIntegral) (t2d : bool)
    (q : list Real) (phi : option (nat -> nat -> Real))
    (dphi : option (nat -> nat -> RealVectorValue)) (qp : nat) (value : Real)
  : InteractionIntegral :=
  {| _crack_front_definition := _crack_front_definition self;
     _has_crack_front_point_index := _has_crack_front_point_index self;
     _crack_front_point_index := _crack_front_point_index self;
     _treat_as_2d := t2d;
     _grad_disp_z := _grad_disp_z self;
     _has_temp := _has_temp self;
     _grad_temp := _grad_temp self;
     _current_instantaneous_thermal_expansion_coef :=
       _current_instantaneous_thermal_expansion_coef self;
     _K_factor := _K_factor self;
     _has_symmetry_plane := _has_symmetry_plane self;
     _t_stress := _t_stress self;
     _poissons_ratio := _poissons_ratio self;
     _ring_index := _ring_index self;
     _ring_first := _ring_first self;
     _q_function_type := _q_function_type self;
     _q_curr_elem := q;
     _phi_curr_elem := phi;
     _dphi_curr_elem := dphi;
     _qp := qp;
     _integral_value := value |}.

Definition set_treat_as_2d (b : bool) (self : InteractionIntegral) :=
  with_members self b (_q_curr_elem self) (_phi_curr_elem self)
    (_dphi_curr_elem self) (_qp self) (_integral_value self).
Definition set_q_curr_elem (q : list Real) (self : InteractionIntegral) :=
  with_members self (_treat_as_2d self) q (_phi_curr_elem self)
    (_dphi_curr_elem self) (_qp self) (_integral_value self).
Definition set_phi_curr_elem (phi : nat -> nat -> Real)
    (self : InteractionIntegral) :=
  with_members self (_treat_as_2d self) (_q_curr_elem self) (Some phi)
    (_dphi_curr_elem self) (_qp self) (_integral_value self).
Definition set_dphi_curr_elem (dphi : nat -> nat -> RealVectorValue)
    (self : InteractionIntegral) :=
  with_members self (_treat_as_2d self) (_q_curr_elem self)
    (_phi_curr_elem self) (Some dphi) (_qp self) (_integral_value self).
(** The [FEBase] object the two pointers point into is destroyed. *)
Definition release_fe (self : InteractionIntegral) :=
  with_members self (_treat_as_2d self) (_q_curr_elem self) None None
    (_qp self) (_integral_value self).
Definition set_qp (qp : nat) (self : InteractionIntegral) :=
  with_members self (_treat_as_2d self) (_q_curr_elem self)
    (_phi_curr_elem self) (_dphi_curr_elem self) qp (_integral_value self).
Definition set_integral_value (v : Real) (self : InteractionIntegral) :=
  with_members self (_treat_as_2d self) (_q_curr_elem self)
    (_phi_curr_elem self) (_dphi_curr_elem self) (_qp self) v.

(** What the constructor reads: the input parameters declared by
    [validParams] (optional ones as [option]), and what the framework answers
    to [getUserObject], [isCoupled], [hasMaterialProperty] and
    [mesh().dimension()]. *)
Record InputParameters : Type := mkParams {
  crack_front_definition : CrackFrontDefinition;
  crack_front_point_index : option Z;
  K_factor : Real;
  symmetry_plane : option Z;
  t_stress : bool;
  poissons_ratio : Real;
  ring_index : Z;
  ring_first : Z;
  q_function_type : QFunctionType;
  isCoupled_temp : bool;
  hasMaterialProperty_thermal_expansion_coef : bool;
  mesh_dimension : nat
}.

Definition isParamValid {A} (p : option A) : bool :=
  match p with Some _ => true | None => false end.

Definition thermal_error_message : string :=
  "To include thermal strain term in interaction integral, must both couple temperature in DomainIntegral block and compute thermal expansion property in material model using compute_InteractionIntegral = true.".

(** [InteractionIntegral::InteractionIntegral]: the initialiser list, then
    the check of the thermal-expansion property, then [_ring_first], which
    is only assigned for the topological q-function. *)
Definition construct (parameters : InputParameters) : outcome InteractionIntegral :=
  let has_temp := isCoupled_temp parameters in
  let coef :=
    if hasMaterialProperty_thermal_expansion_coef parameters
    then RealProperty else NULL in
  let self (assigned_ring_first : option Z) :=
    {| _crack_front_definition := crack_front_definition parameters;
       _has_crack_front_point_index :=
         isParamValid (crack_front_point_index parameters);
       _crack_front_point_index :=
         match crack_front_point_index parameters with
         | Some i => i
         | None => 0%Z
         end;
       _treat_as_2d := false;
       _grad_disp_z :=
         if Nat.eqb (mesh_dimension parameters) 3
         then coupledGradient disp_z else grad_zero_ref;
       _has_temp := has_temp;
       _grad_temp := if has_temp then coupledGradient temp else grad_zero_ref;
       _current_instantaneous_thermal_expansion_coef := coef;
       _K_factor := K_factor parameters;
       _has_symmetry_plane := isParamValid (symmetry_plane parameters);
       _t_stress := t_stress parameters;
       _poissons_ratio := poissons_ratio parameters;
       _ring_index := ring_index parameters;
       _ring_first := assigned_ring_first;
       _q_function_type := q_function_type parameters;
       _q_curr_elem := [];
       _phi_curr_elem := None;
       _dphi_curr_elem := None;
       _qp := 0%nat;
       _integral_value := 0 |} in
  if has_temp && match coef with NULL => true | RealProperty => false end
  then MooseError thermal_error_message
  else if QFunctionType_eqb (q_function_type parameters) TOPOLOGY
       then Ok (self (Some (ring_first parameters)))
       else Ok (self None).

(** [InteractionIntegral::initialSetup]. *)
Definition initialSetup (self : InteractionIntegral) : InteractionIntegral :=
  set_treat_as_2d (treatAs2D (_crack_front_definition self)) self.

(* ================================================================== *)
(** ** The integrand at one quadrature point *)

(** The local variables of [computeQpIntegral] when it reaches its
    [return]. *)
Record QpLocals : Type := mkLocals {
  scalar_q : Real;
  grad_q : RealVectorValue;
  aux_du : ColumnMajorMatrix;
  stress : ColumnMajorMatrix;
  strain : ColumnMajorMatrix;
  grad_disp : ColumnMajorMatrix;
  grad_q_cf : RealVectorValue;
  grad_disp_cf : ColumnMajorMatrix;
  stress_cf : ColumnMajorMatrix;
  strain_cf : ColumnMajorMatrix;
  grad_temp_cf : RealVectorValue;
  dq : ColumnMajorMatrix;
  term1 : Real;
  term2 : Real;
  term3 : Real;
  term4 : Real;
  q_avg_seg : Real;
  eq : Real
}.

(** A run of assignments [m(i, j) = x;]. *)
Definition entry (i j : nat) (x : Real) : nat * nat * Real := (i, j, x).

Definition cm_assign (m : ColumnMajorMatrix) (l : list (nat * nat * Real))
  : ColumnMajorMatrix :=
  fold_left (fun m '(i, j, x) => cm_set m i j x) l m.

Definition deref {A} (p : option A) : outcome A :=
  match p with
  | Some a => Ok a
  | None => Fault
  end.

(** The body of [InteractionIntegral::computeQpIntegral] up to its
    [return]. *)
Definition computeQpIntegral_locals (self : InteractionIntegral)
    (asm : Assembly) : outcome QpLocals :=
  let cfd := _crack_front_definition self in
  let point := _crack_front_point_index self in
  phi_curr_elem <- deref (_phi_curr_elem self) ;;
  dphi_curr_elem <- deref (_dphi_curr_elem self) ;;
  (* every array read below is read at [_qp] *)
  qp <- at_quadrature_point asm (_qp self) ;;
  ' (scalar_q, grad_q) <-
    fold_left (fun acc i =>
        ' (scalar_q, grad_q) <- acc ;;
        q_i <- vector_at (_q_curr_elem self) i ;;
        Ok (scalar_q + phi_curr_elem i qp * q_i,
            fold_left (fun grad_q j =>
                vec_set grad_q j
                  (vec_get grad_q j + vec_get (dphi_curr_elem i qp) j * q_i))
              (seq 0 (dim (_current_elem asm))) grad_q))
      (seq 0 (n_nodes (_current_elem asm))) (Ok (0, mkVec 0 0 0)) ;;
  (* In the crack front coordinate system, the crack direction is (1,0,0) *)
  let crack_direction := vec_set (mkVec 0 0 0) 0 1 in
  let aux_du :=
    cm_assign cm_zero
      [ entry 0 0 (cm_get (_aux_grad_disp asm qp) 0 0);
        entry 0 1 (cm_get (_aux_grad_disp asm qp) 0 1);
        entry 0 2 (cm_get (_aux_grad_disp asm qp) 0 2) ] in
  let stress :=
    cm_assign cm_zero
      [ entry 0 0 (xx (_stress asm qp)); entry 0 1 (xy (_stress asm qp));
        entry 0 2 (xz (_stress asm qp)); entry 1 0 (xy (_stress asm qp));
        entry 1 1 (yy (_stress asm qp)); entry 1 2 (yz (_stress asm qp));
        entry 2 0 (xz (_stress asm qp)); entry 2 1 (yz (_stress asm qp));
        entry 2 2 (zz (_stress asm qp)) ] in
  let strain :=
    cm_assign cm_zero
      [ entry 0 0 (xx (_strain asm qp)); entry 0 1 (xy (_strain asm qp));
        entry 0 2 (xz (_strain asm qp)); entry 1 0 (xy (_strain asm qp));
        entry 1 1 (yy (_strain asm qp)); entry 1 2 (yz (_strain asm qp));
        entry 2 0 (xz (_strain asm qp)); entry 2 1 (yz (_strain asm qp));
        entry 2 2 (zz (_strain asm qp)) ] in
  let _grad_disp_x := grad_at asm (coupledGradient disp_x) qp in
  let _grad_disp_y := grad_at asm (coupledGradient disp_y) qp in
  let _grad_disp_z := grad_at asm (_grad_disp_z self) qp in
  let grad_disp :=
    cm_assign cm_zero
      [ entry 0 0 (vec_get _grad_disp_x 0); entry 0 1 (vec_get _grad_disp_x 1);
        entry 0 2 (vec_get _grad_disp_x 2); entry 1 0 (vec_get _grad_disp_y 0);
        entry 1 1 (vec_get _grad_disp_y 1); entry 1 2 (vec_get _grad_disp_y 2);
        entry 2 0 (vec_get _grad_disp_z 0); entry 2 1 (vec_get _grad_disp_z 1);
        entry 2 2 (vec_get _grad_disp_z 2) ] in
  (* Rotate stress, strain, displacement and temperature to crack front
     coordinate system *)
  let grad_q_cf := rotateVectorToCrackFrontCoords cfd grad_q point in
  let grad_disp_cf := rotateToCrackFrontCoords cfd grad_disp point in
  let stress_cf := rotateToCrackFrontCoords cfd stress point in
  let strain_cf := rotateToCrackFrontCoords cfd strain point in
  let grad_temp_cf :=
    rotateVectorToCrackFrontCoords cfd (grad_at asm (_grad_temp self) qp) point in
  let dq :=
    cm_assign cm_zero
      [ entry 0 0 (vec_get crack_direction 0 * vec_get grad_q_cf 0);
        entry 0 1 (vec_get crack_direction 0 * vec_get grad_q_cf 1);
        entry 0 2 (vec_get crack_direction 0 * vec_get grad_q_cf 2) ] in
  (* Term1 = stress * x1-derivative of aux disp * dq *)
  let tmp1 := cm_mul dq stress_cf in
  let term1 := cm_doubleContraction aux_du tmp1 in
  (* Term2 = aux stress * x1-derivative of disp * dq *)
  let tmp2 := cm_mul dq (_aux_stress asm qp) in
  let term2 :=
    cm_get grad_disp_cf 0 0 * cm_get tmp2 0 0 +
    cm_get grad_disp_cf 1 0 * cm_get tmp2 0 1 +
    cm_get grad_disp_cf 2 0 * cm_get tmp2 0 2 in
  (* Term3 = aux stress * strain * dq_x *)
  let term3 :=
    cm_get dq 0 0 * cm_doubleContraction (_aux_stress asm qp) strain_cf in
  (* Term4 (thermal strain term) = q * aux_stress * alpha * dtheta_x *)
  term4 <-
    (if _has_temp self
     then
       let aux_stress_trace :=
         cm_get (_aux_stress asm qp) 0 0 + cm_get (_aux_stress asm qp) 1 1 +
         cm_get (_aux_stress asm qp) 2 2 in
       coef <- prop_at asm (_current_instantaneous_thermal_expansion_coef self) qp ;;
       Ok (scalar_q * aux_stress_trace * coef * vec_get grad_temp_cf 0)
     else Ok 0) ;;
  let q_avg_seg :=
    if negb (treatAs2D cfd)
    then (getCrackFrontForwardSegmentLength cfd point +
          getCrackFrontBackwardSegmentLength cfd point) / 2
    else 1 in
  let eq := term1 + term2 - term3 + term4 in
  let eq := if _has_symmetry_plane self then eq * 2 else eq in
  Ok (mkLocals scalar_q grad_q aux_du stress strain grad_disp grad_q_cf
        grad_disp_cf stress_cf strain_cf grad_temp_cf dq term1 term2 term3
        term4 q_avg_seg eq).

(** [InteractionIntegral::computeQpIntegral]. *)
Definition computeQpIntegral (self : InteractionIntegral) (asm : Assembly)
  : outcome Real :=
  l <- computeQpIntegral_locals self asm ;;
  Ok (eq l / q_avg_seg l).

(* ================================================================== *)
(** ** Member functions that change the object

    A member function runs on the object, may change its members, may call
    the weight-function generators of the crack-front definition (the calls
    are recorded in the order they are made), and ends in an [outcome]. *)

Definition M (A : Type) : Type :=
  InteractionIntegral -> outcome (A * InteractionIntegral * list QCall).

Definition ret {A} (a : A) : M A := fun self => Ok (a, self, []).

Definition bind {A B} (m : M A) (k : A -> M B) : M B :=
  fun self =>
    match m self with
    | Ok (a, self', calls) =>
        match k a self' with
        | Ok (b, self'', calls') => Ok (b, self'', calls ++ calls')
        | MooseError msg => MooseError msg
        | Fault => Fault
        end
    | MooseError msg => MooseError msg
    | Fault => Fault
    end.

Notation "x <<- m ;; k" := (bind m (fun x => k))
  (at level 61, m at next level, right associativity).
Notation "m ;;; k" := (bind m (fun _ => k))
  (at level 61, right associativity).

Definition this : M InteractionIntegral := fun self => Ok (self, self, []).

Definition modify (f : InteractionIntegral -> InteractionIntegral) : M unit :=
  fun self => Ok (tt, f self, []).

(** A call of a [const] member function. *)
Definition lift {A} (f : InteractionIntegral -> outcome A) : M A :=
  fun self =>
    match f self with
    | Ok a => Ok (a, self, [])
    | MooseError msg => MooseError msg
    | Fault => Fault
    end.

(** A call of one of the weight-function generators. *)
Definition invoke (c : QCall) : M Real :=
  fun self => Ok (perform (_crack_front_definition self) c, self, [c]).

(** [for (i = 0; i < n; ++i) body]. *)
Fixpoint for_each (l : list nat) (body : nat -> M unit) : M unit :=
  match l with
  | [] => ret tt
  | i :: l' => body i ;;; for_each l' body
  end.

(** A loop that carries a local variable. *)
Fixpoint for_accum {A} (l : list nat) (acc : A) (body : A -> nat -> M A) : M A :=
  match l with
  | [] => ret acc
  | i :: l' => acc' <<- body acc i ;; for_accum l' acc' body
  end.

(** [InteractionIntegral::computeIntegral].  The [FEBase] object [fe] is a
    local of the function: [_phi_curr_elem] and [_dphi_curr_elem] point
    into it from their assignment to the [return], where it is destroyed. *)
Definition computeIntegral (asm : Assembly) : M Real :=
  (* calculate phi and dphi for this element *)
  modify (set_phi_curr_elem (fe_get_phi asm)) ;;;
  modify (set_dphi_curr_elem (fe_get_dphi asm)) ;;;
  (* calculate q for all nodes in this element *)
  modify (set_q_curr_elem []) ;;;
  self <<- this ;;
  let ring_base :=
    if QFunctionType_eqb (_q_function_type self) TOPOLOGY then 0%Z else 1%Z in
  for_each (seq 0 (n_nodes (_current_elem asm))) (fun i =>
    let this_node := get_node (_current_elem asm) i in
    q_this_node <<-
      match _q_function_type self with
      | GEOMETRY =>
          invoke (CallDomainIntegralQFunction
                    (_crack_front_point_index self)
                    (uint_sub (_ring_index self) ring_base) this_node)
      | TOPOLOGY =>
          invoke (CallDomainIntegralTopologicalQFunction
                    (_crack_front_point_index self)
                    (uint_sub (_ring_index self) ring_base) this_node)
      end ;;
    modify (fun s => set_q_curr_elem (_q_curr_elem s ++ [q_this_node]) s)) ;;;
  sum <<-
    for_accum (seq 0 (qrule_n_points asm)) 0 (fun sum qp =>
      modify (set_qp qp) ;;;
      integrand <<- lift (fun s => computeQpIntegral s asm) ;;
      ret (sum + _JxW asm qp * _coord asm qp * integrand)) ;;
  modify (set_qp (qrule_n_points asm)) ;;;
  modify release_fe ;;;
  ret sum.

(** Modelled from the spec: [ElementIntegralPostprocessor], the base class
    that owns the accumulator, is not part of the sources at hand.  The
    spec has the accumulator reset to zero at the start of an evaluation
    pass, every element's contribution added to it, and the partitions'
    totals combined by summation before the value is read. *)
Definition initialize : M unit := modify (set_integral_value 0).

Definition execute (asm : Assembly) : M unit :=
  contribution <<- computeIntegral asm ;;
  modify (fun s => set_integral_value (_integral_value s + contribution) s).

(** Modelled from the spec: [gatherSum], the reduction over the mesh
    partitions: the totals of the other partitions are added to the local
    one. *)
Definition gatherSum (others : list Real) (value : Real) : Real :=
  fold_left (fun acc v => acc + v) others value.

(** [InteractionIntegral::getValue]; [others] are the totals the other
    partitions bring to the reduction. *)
Definition getValue (others : list Real) : M Real :=
  modify (fun s => set_integral_value (gatherSum others (_integral_value s)) s) ;;;
  self <<- this ;;
  (if _t_stress self && negb (_treat_as_2d self)
   then
     modify (fun s =>
       set_integral_value
         (_integral_value s +
          _poissons_ratio s *
          getCrackFrontTangentialStrain (_crack_front_definition s)
            (_crack_front_point_index s)) s)
   else ret tt) ;;;
  self <<- this ;;
  ret (_K_factor self * _integral_value self).

(** One evaluation pass over the elements of this partition. *)
Definition evaluate (elements : list Assembly) (others : list Real) : M Real :=
  initialize ;;;
  fold_right (fun asm rest => execute asm ;;; rest) (ret tt) elements ;;;
  getValue others.

(** The value a member function returns, when it returns. *)
Definition returned {A} (r : outcome (A * InteractionIntegral * list QCall))
  : outcome A :=
  ' (a, _, _) <- r ;; Ok a.

(* ================================================================== *)
(** ** The integrand as the specification writes it

    The tensor assembler and the pointwise integrand evaluator, written
    from the formulas of the specification; all arguments of the evaluator
    are quantities in the local crack-front frame. *)

Module Spec.

(** The dense 3x3 form of a symmetric tensor, off-diagonals mirrored. *)
Definition dense (t : SymmTensor) : ColumnMajorMatrix :=
  mkCM (xx t) (xy t) (xz t)
       (xy t) (yy t) (yz t)
       (xz t) (yz t) (zz t).

(** The matrix whose row [i] is the gradient of displacement component
    [i]. *)
Definition gradient_matrix (gx gy gz : RealVectorValue) : ColumnMajorMatrix :=
  mkCM (vx gx) (vx gy) (vx gz)
       (vy gx) (vy gy) (vy gz)
       (vz gx) (vz gy) (vz gz).

(** The rank-2 tensor whose row 0 is the vector [g] and whose other rows
    are zero. *)
Definition row0_tensor (g : RealVectorValue) : ColumnMajorMatrix :=
  mkCM (vx g) 0 0
       (vy g) 0 0
       (vz g) 0 0.

(** Row 0 of a matrix, the other rows zero. *)
Definition row0_of (m : ColumnMajorMatrix) : ColumnMajorMatrix :=
  mkCM (cm0 m) 0 0
       (cm3 m) 0 0
       (cm6 m) 0 0.

(** The interpolated weight and its gradient at quadrature point [qp]. *)
Definition interpolated_q (phi : nat -> nat -> Real) (q : list Real)
    (nodes qp : nat) : Real :=
  fold_left (fun acc i => acc + phi i qp * nth i q 0) (seq 0 nodes) 0.

Definition interpolated_grad_q (dphi : nat -> nat -> RealVectorValue)
    (q : list Real) (nodes dims qp : nat) : RealVectorValue :=
  fold_left (fun g i =>
      fold_left (fun g j =>
          vec_set g j (vec_get g j + vec_get (dphi i qp) j * nth i q 0))
        (seq 0 dims) g)
    (seq 0 nodes) vec_zero.

Definition trace (m : ColumnMajorMatrix) : Real :=
  cm_get m 0 0 + cm_get m 1 1 + cm_get m 2 2.

(** term1 = aux_du : (dq . stress) *)
Definition term1 (aux_du dq stress : ColumnMajorMatrix) : Real :=
  cm_doubleContraction aux_du (cm_mul dq stress).

(** term2 = sum over i of grad_disp[i][0] * (dq . aux_stress)[0][i] *)
Definition term2 (grad_disp dq aux_stress : ColumnMajorMatrix) : Real :=
  cm_get grad_disp 0 0 * cm_get (cm_mul dq aux_stress) 0 0 +
  cm_get grad_disp 1 0 * cm_get (cm_mul dq aux_stress) 0 1 +
  cm_get grad_disp 2 0 * cm_get (cm_mul dq aux_stress) 0 2.

(** term3 = (dq/dx1) * (aux_stress : strain) *)
Definition term3 (dq aux_stress strain : ColumnMajorMatrix) : Real :=
  cm_get dq 0 0 * cm_doubleContraction aux_stress strain.

(** The thermal term as a function of its four arguments. *)
Definition thermal_term (q trace_aux_stress alpha dT_dx1 : Real) : Real :=
  q * trace_aux_stress * alpha * dT_dx1.

(** term4 = 0 unless temperature is coupled. *)
Definition term4 (has_temp : bool) (q : Real) (aux_stress : ColumnMajorMatrix)
    (alpha : Real) (grad_temp : RealVectorValue) : Real :=
  if has_temp
  then thermal_term q (trace aux_stress) alpha (vec_get grad_temp 0)
  else 0.

(** eq = term1 + term2 - term3 + term4, doubled across a symmetry plane. *)
Definition eq_terms (has_symmetry_plane : bool) (t1 t2 t3 t4 : Real) : Real :=
  if has_symmetry_plane then (t1 + t2 - t3 + t4) * 2 else t1 + t2 - t3 + t4.

(** The normalisation divisor. *)
Definition norm (treat_as_2d : bool) (forward backward : Real) : Real :=
  if treat_as_2d then 1 else (forward + backward) / 2.

(** The pointwise integrand from quantities in the crack-front frame. *)
Definition integrand (has_temp has_symmetry_plane : bool)
    (grad_q grad_temp : RealVectorValue)
    (grad_disp stress strain aux_stress aux_du : ColumnMajorMatrix)
    (q alpha divisor : Real) : Real :=
  let dq := row0_tensor grad_q in
  eq_terms has_symmetry_plane
    (term1 aux_du dq stress)
    (term2 grad_disp dq aux_stress)
    (term3 dq aux_stress strain)
    (term4 has_temp q aux_stress alpha grad_temp)
  / divisor.

End Spec.

(** The object is inside the quadrature loop of an element pass: the two
    pointers point to the shape functions of a live [FEBase] object, [_qp]
    is one of the quadrature points, q is known at every node of the
    element, and the thermal-expansion property is there if temperature is
    coupled. *)
Definition ready (self : InteractionIntegral) (asm : Assembly) : bool :=
  isParamValid (_phi_curr_elem self) &&
  isParamValid (_dphi_curr_elem self) &&
  (_qp self <? qrule_n_points asm)%nat &&
  (n_nodes (_current_elem asm) <=? List.length (_q_curr_elem self))%nat &&
  (negb (_has_temp self) ||
   match _current_instantaneous_thermal_expansion_coef self with
   | RealProperty => true
   | NULL => false
   end).

Definition phi_of (self : InteractionIntegral) : nat -> nat -> Real :=
  match _phi_curr_elem self with
  | Some phi => phi
  | None => fun _ _ => 0
  end.

Definition dphi_of (self : InteractionIntegral) : nat -> nat -> RealVectorValue :=
  match _dphi_curr_elem self with
  | Some dphi => dphi
  | None => fun _ _ => vec_zero
  end.

(** The locals of [computeQpIntegral] in the specification's terms. *)
Definition expected_locals (self : InteractionIntegral) (asm : Assembly)
  : QpLocals :=
  let qp := _qp self in
  let cfd := _crack_front_definition self in
  let point := _crack_front_point_index self in
  let e := _current_elem asm in
  let scalar_q :=
    Spec.interpolated_q (phi_of self) (_q_curr_elem self) (n_nodes e) qp in
  let grad_q :=
    Spec.interpolated_grad_q (dphi_of self) (_q_curr_elem self)
      (n_nodes e) (dim e) qp in
  let aux_du := Spec.row0_of (_aux_grad_disp asm qp) in
  let stress := Spec.dense (_stress asm qp) in
  let strain := Spec.dense (_strain asm qp) in
  let grad_disp :=
    Spec.gradient_matrix
      (coupled_gradient_values asm disp_x qp)
      (coupled_gradient_values asm disp_y qp)
      (grad_at asm (_grad_disp_z self) qp) in
  let grad_q_cf := rotateVectorToCrackFrontCoords cfd grad_q point in
  let grad_disp_cf := rotateToCrackFrontCoords cfd grad_disp point in
  let stress_cf := rotateToCrackFrontCoords cfd stress point in
  let strain_cf := rotateToCrackFrontCoords cfd strain point in
  let grad_temp_cf :=
    rotateVectorToCrackFrontCoords cfd (grad_at asm (_grad_temp self) qp) point in
  let dq := Spec.row0_tensor grad_q_cf in
  let term1 := Spec.term1 aux_du dq stress_cf in
  let term2 := Spec.term2 grad_disp_cf dq (_aux_stress asm qp) in
  let term3 := Spec.term3 dq (_aux_stress asm qp) strain_cf in
  let term4 :=
    Spec.term4 (_has_temp self) scalar_q (_aux_stress asm qp)
      (thermal_expansion_coef_values asm qp) grad_temp_cf in
  let q_avg_seg :=
    Spec.norm (treatAs2D cfd)
      (getCrackFrontForwardSegmentLength cfd point)
      (getCrackFrontBackwardSegmentLength cfd point) in
  mkLocals scalar_q grad_q aux_du stress strain grad_disp grad_q_cf
    grad_disp_cf stress_cf strain_cf grad_temp_cf dq term1 term2 term3 term4
    q_avg_seg (Spec.eq_terms (_has_symmetry_plane self) term1 term2 term3 term4).

(* ================================================================== *)
(** ** What an element pass computes *)

(** One turn of the interpolation loop of [computeQpIntegral]. *)
Definition interpolation_step (phi : nat -> nat -> Real)
    (dphi : nat -> nat -> RealVectorValue) (q : list Real) (dims qp : nat)
    (acc : outcome (Real * RealVectorValue)) (i : nat)
  : outcome (Real * RealVectorValue) :=
  ' (scalar_q, grad_q) <- acc ;;
  q_i <- vector_at q i ;;
  Ok (scalar_q + phi i qp * q_i,
      fold_left (fun grad_q j =>
          vec_set grad_q j (vec_get grad_q j + vec_get (dphi i qp) j * q_i))
        (seq 0 dims) grad_q).

(** The thermal-expansion pointer is there whenever temperature is
    coupled: what the constructor checks. *)
Definition coef_ok (self : InteractionIntegral) : bool :=
  negb (_has_temp self) ||
  match _current_instantaneous_thermal_expansion_coef self with
  | RealProperty => true
  | NULL => false
  end.

(** The generator call [computeIntegral] makes for node [i]. *)
Definition q_call (self : InteractionIntegral) (asm : Assembly) (i : nat) : QCall :=
  let ring_base :=
    if QFunctionType_eqb (_q_function_type self) TOPOLOGY then 0%Z else 1%Z in
  match _q_function_type self with
  | GEOMETRY =>
      CallDomainIntegralQFunction (_crack_front_point_index self)
        (uint_sub (_ring_index self) ring_base) (get_node (_current_elem asm) i)
  | TOPOLOGY =>
      CallDomainIntegralTopologicalQFunction (_crack_front_point_index self)
        (uint_sub (_ring_index self) ring_base) (get_node (_current_elem asm) i)
  end.

Definition element_calls (self : InteractionIntegral) (asm : Assembly)
  : list QCall :=
  map (q_call self asm) (seq 0 (n_nodes (_current_elem asm))).

(** The object while [computeIntegral] is at quadrature point [qp]. *)
Definition in_element (self : InteractionIntegral) (asm : Assembly) (qp : nat)
  : InteractionIntegral :=
  with_members self (_treat_as_2d self)
    (map (perform (_crack_front_definition self)) (element_calls self asm))
    (Some (fe_get_phi asm)) (Some (fe_get_dphi asm)) qp (_integral_value self).

(** The object when [computeIntegral] has returned. *)
Definition after_element (self : InteractionIntegral) (asm : Assembly)
  : InteractionIntegral :=
  with_members self (_treat_as_2d self)
    (map (perform (_crack_front_definition self)) (element_calls self asm))
    None None (qrule_n_points asm) (_integral_value self).

(** The integrand at quadrature point [qp] of the element. *)
Definition integrand_at (self : InteractionIntegral) (asm : Assembly) (qp : nat)
  : Real :=
  let l := expected_locals (in_element self asm qp) asm in
  eq l / q_avg_seg l.

(** The element's contribution: the quadrature sum. *)
Definition element_integral (self : InteractionIntegral) (asm : Assembly) : Real :=
  fold_left (fun sum qp => sum + _JxW asm qp * _coord asm qp * integrand_at self asm qp)
    (seq 0 (qrule_n_points asm)) 0.

(** The raw sum of the element contributions, accumulated from [0.0] in
    the order the elements are visited. *)
Definition raw_sum (self : InteractionIntegral) (elements : list Assembly)
    (start : Real) : Real :=
  fold_left (fun acc asm => acc + element_integral self asm) elements start.

(** What [getValue] makes of the reduced sum. *)
Definition finalized (self : InteractionIntegral) (reduced : Real) : Real :=
  _K_factor self *
  (if _t_stress self && negb (_treat_as_2d self)
   then reduced +
        _poissons_ratio self *
        getCrackFrontTangentialStrain (_crack_front_definition self)
          (_crack_front_point_index self)
   else reduced).

(** The call ended in [mooseError]. *)
Definition raises {A} (o : outcome A) : bool :=
  match o with
  | MooseError _ => true
  | _ => false
  end.

(** The integrand of the specification, fed with the q-gradient, the
    displacement gradient, the stress, the strain and the temperature
    gradient rotated to the crack-front frame of the crack-front point, and
    with [aux_stress] for the auxiliary stress. *)
Definition integrand_with_aux_stress (self : InteractionIntegral)
    (asm : Assembly) (aux_stress : ColumnMajorMatrix) : Real :=
  let qp := _qp self in
  let cfd := _crack_front_definition self in
  let point := _crack_front_point_index self in
  let e := _current_elem asm in
  Spec.integrand (_has_temp self) (_has_symmetry_plane self)
    (rotateVectorToCrackFrontCoords cfd
       (Spec.interpolated_grad_q (dphi_of self) (_q_curr_elem self)
          (n_nodes e) (dim e) qp) point)
    (rotateVectorToCrackFrontCoords cfd (grad_at asm (_grad_temp self) qp) point)
    (rotateToCrackFrontCoords cfd
       (Spec.gradient_matrix
          (coupled_gradient_values asm disp_x qp)
          (coupled_gradient_values asm disp_y qp)
          (grad_at asm (_grad_disp_z self) qp)) point)
    (rotateToCrackFrontCoords cfd (Spec.dense (_stress asm qp)) point)
    (rotateToCrackFrontCoords cfd (Spec.dense (_strain asm qp)) point)
    aux_stress
    (Spec.row0_of (_aux_grad_disp asm qp))
    (Spec.interpolated_q (phi_of self) (_q_curr_elem self) (n_nodes e) qp)
    (thermal_expansion_coef_values asm qp)
    (Spec.norm (treatAs2D cfd)
       (getCrackFrontForwardSegmentLength cfd point)
       (getCrackFrontBackwardSegmentLength cfd point)).

(** The stress, the strain, the auxiliary stress and the auxiliary
    displacement gradient vanish at every quadrature point. *)
Definition zero_fields (asm : Assembly) : Prop :=
  forall qp,
    symm_forall is_zero (_stress asm qp) = true /\
    symm_forall is_zero (_strain asm qp) = true /\
    cm_forall is_zero (_aux_stress asm qp) = true /\
    cm_forall is_zero (_aux_grad_disp asm qp) = true.

(** The rotation at the crack-front point maps the zero tensor to the zero
    tensor. *)
Definition rotation_keeps_zero (self : InteractionIntegral) : Prop :=
  forall T,
    cm_forall is_zero T = true ->
    cm_forall is_zero
      (rotateToCrackFrontCoords (_crack_front_definition self) T
         (_crack_front_point_index self)) = true.

(** The other inputs of the integrand are finite at every quadrature point
    of the element, and the divisor is neither zero nor NaN. *)
Definition finite_inputs (self : InteractionIntegral) (asm : Assembly) : Prop :=
  forall qp, (qp < qrule_n_points asm)%nat ->
    let l := expected_locals (in_element self asm qp) asm in
    is_finite (_JxW asm qp * _coord asm qp) = true /\
    is_finite (scalar_q l) = true /\
    vec_forall is_finite (grad_q_cf l) = true /\
    cm_forall is_finite (grad_disp_cf l) = true /\
    is_finite (thermal_expansion_coef_values asm qp) = true /\
    is_finite (vec_get (grad_temp_cf l) 0) = true /\
    is_divisor (q_avg_seg l) = true.

Ltac split_forall H :=
  repeat (let H' := fresh H in
          apply andb_prop in H; destruct H as [H H']).

(* ================================================================== *)
(** ** A worked configuration

    One four-node element with one quadrature point, unit q at every node
    and a thermal load, on a crack front whose local frame is the global
    frame turned a quarter turn about the third axis. *)

Module Demo.

Definition quarter_turn : ColumnMajorMatrix :=
  cm_assign cm_zero [ entry 0 1 1; entry 1 0 (-1); entry 2 2 1 ].

(** Every node has weight 1, whatever the ring. *)
Definition front (is2d : bool) (fwd bwd : Real) : CrackFrontDefinition :=
  frame_of_rotation quarter_turn is2d fwd bwd 1
    (fun _ _ _ => 1) (fun _ _ _ => 1).

Definition quad4 : Elem := mkElem 4 2 (fun i => (10 + i)%nat).

Definition diagonal (a b c : Real) : ColumnMajorMatrix :=
  cm_assign cm_zero [ entry 0 0 a; entry 1 1 b; entry 2 2 c ].

(** One quadrature point of weight 1; the four shape functions are 1/4
    there, the gradient of the first one is [dphi0] and the others
    vanish; the only non-zero fields are the gradients of [disp_y] and
    [temp], the auxiliary stress and the expansion coefficient. *)
Definition element (dphi0 grad_disp_y grad_temp : RealVectorValue)
    (aux_stress : ColumnMajorMatrix) (alpha : Real) : Assembly :=
  {| _current_elem := quad4;
     qrule_n_points := 1;
     _JxW := fun _ => 1;
     _coord := fun _ => 1;
     fe_get_phi := fun _ _ => 0.25;
     fe_get_dphi := fun i _ =>
       match i with
       | 0%nat => dphi0
       | _ => vec_zero
       end;
     coupled_gradient_values := fun v _ =>
       match v with
       | disp_y => grad_disp_y
       | temp => grad_temp
       | _ => vec_zero
       end;
     _stress := fun _ => symm_zero;
     _strain := fun _ => symm_zero;
     _aux_stress := fun _ => aux_stress;
     _aux_grad_disp := fun _ => cm_zero;
     thermal_expansion_coef_values := fun _ => alpha |}.

(** A thermal load only: q = 1, grad q = 0, trace(aux_stress) = 5. *)
Definition thermal (alpha dT_dy : Real) : Assembly :=
  element vec_zero vec_zero (mkVec 0 dT_dy 0) (diagonal 1 3 1) alpha.

(** A thermal load whose integrand is 3. *)
Definition thermal3 : Assembly :=
  element vec_zero vec_zero (mkVec 0 1 0) (diagonal 1 1 1) 1.

(** A mechanical load only: grad q = (0, 1, 0), d(disp_y)/dy = 1. *)
Definition mechanical : Assembly :=
  element (mkVec 0 1 0) (mkVec 0 1 0) vec_zero (diagonal 1 3 1) 1.

(** No load at all. *)
Definition unloaded : Assembly :=
  element (mkVec 0 1 0) (mkVec 0 1 0) (mkVec 0 1 0) cm_zero 1.

Definition params (cfd : CrackFrontDefinition) (sym : option Z)
    (ts : bool) (kind : QFunctionType) (ring : Z) (with_temp : bool)
  : InputParameters :=
  {| crack_front_definition := cfd;
     crack_front_point_index := Some 0%Z;
     K_factor := 2;
     symmetry_plane := sym;
     t_stress := ts;
     poissons_ratio := 0.5;
     ring_index := ring;
     ring_first := 1%Z;
     q_function_type := kind;
     isCoupled_temp := with_temp;
     hasMaterialProperty_thermal_expansion_coef := with_temp;
     mesh_dimension := 2 |}.

(** The object the constructor makes from [params]. *)
Definition constructed (cfd : CrackFrontDefinition) (sym : option Z)
    (ts : bool) (kind : QFunctionType) (ring : Z) (with_temp : bool)
  : InteractionIntegral :=
  {| _crack_front_definition := cfd;
     _has_crack_front_point_index := true;
     _crack_front_point_index := 0%Z;
     _treat_as_2d := false;
     _grad_disp_z := grad_zero_ref;
     _has_temp := with_temp;
     _grad_temp := if with_temp then coupledGradient temp else grad_zero_ref;
     _current_instantaneous_thermal_expansion_coef :=
       if with_temp then RealProperty else NULL;
     _K_factor := 2;
     _has_symmetry_plane := isParamValid sym;
     _t_stress := ts;
     _poissons_ratio := 0.5;
     _ring_index := ring;
     _ring_first :=
       match kind with
       | TOPOLOGY => Some 1%Z
       | GEOMETRY => None
       end;
     _q_function_type := kind;
     _q_curr_elem := [];
     _phi_curr_elem := None;
     _dphi_curr_elem := None;
     _qp := 0%nat;
     _integral_value := 0 |}.

(** The same after [initialSetup]. *)
Definition object (cfd : CrackFrontDefinition) (sym : option Z)
    (ts : bool) (kind : QFunctionType) (ring : Z) (with_temp : bool)
  : InteractionIntegral :=
  initialSetup (constructed cfd sym ts kind ring with_temp).

(** Temperature coupled, but the material declares no thermal-expansion
    property. *)
Definition params_without_coef : InputParameters :=
  {| crack_front_definition := front true 0 0;
     crack_front_point_index := Some 0%Z;
     K_factor := 2;
     symmetry_plane := None;
     t_stress := false;
     poissons_ratio := 0.5;
     ring_index := 1%Z;
     ring_first := 1%Z;
     q_function_type := GEOMETRY;
     isCoupled_temp := true;
     hasMaterialProperty_thermal_expansion_coef := false;
     mesh_dimension := 2 |}.

(** A geometric ring 1 on a two-dimensional front, temperature coupled. *)
Definition object2d : InteractionIntegral :=
  object (front true 0 0) None false GEOMETRY 1 true.

(** The same on a three-dimensional front whose neighbouring segments
    have the lengths [fwd] and [bwd], with the T-stress requested. *)
Definition object3d (fwd bwd : Real) : InteractionIntegral :=
  object (front false fwd bwd) None true GEOMETRY 1 true.

End Demo.

(* ================================================================== *)
(** ** Further notions *)

(** The generator calls a member function made, when it returned. *)
Definition calls_made {A} (r : outcome (A * InteractionIntegral * list QCall))
  : list QCall :=
  match r with
  | Ok (_, _, calls) => calls
  | _ => []
  end.

(** The assembly with other values in the storage of the temperature
    gradient and of the thermal-expansion coefficient. *)
Definition with_thermal_storage (asm : Assembly)
    (grad_temp : nat -> RealVectorValue) (coef : nat -> Real) : Assembly :=
  {| _current_elem := _current_elem asm;
     qrule_n_points := qrule_n_points asm;
     _JxW := _JxW asm;
     _coord := _coord asm;
     fe_get_phi := fe_get_phi asm;
     fe_get_dphi := fe_get_dphi asm;
     coupled_gradient_values := fun v =>
       match v with
       | temp => grad_temp
       | _ => coupled_gradient_values asm v
       end;
     _stress := _stress asm;
     _strain := _strain asm;
     _aux_stress := _aux_stress asm;
     _aux_grad_disp := _aux_grad_disp asm;
     thermal_expansion_coef_values := coef |}.

(** The assembly with other values in the storage of the gradient of
    [disp_z]. *)
Definition with_disp_z_storage (asm : Assembly)
    (grad_disp_z : nat -> RealVectorValue) : Assembly :=
  {| _current_elem := _current_elem asm;
     qrule_n_points := qrule_n_points asm;
     _JxW := _JxW asm;
     _coord := _coord asm;
     fe_get_phi := fe_get_phi asm;
     fe_get_dphi := fe_get_dphi asm;
     coupled_gradient_values := fun v =>
       match v with
       | disp_z => grad_disp_z
       | _ => coupled_gradient_values asm v
       end;
     _stress := _stress asm;
     _strain := _strain asm;
     _aux_stress := _aux_stress asm;
     _aux_grad_disp := _aux_grad_disp asm;
     thermal_expansion_coef_values := thermal_expansion_coef_values asm |}.

(** Two sets of input parameters that differ at most in what no member
    function looks at: the value of [ring_first], the axis given as
    [symmetry_plane] (not whether one is given), and whether
    [crack_front_point_index] is omitted or given as 0. *)
Definition differ_in_unread_inputs (p p' : InputParameters) : Prop :=
  crack_front_definition p = crack_front_definition p' /\
  match crack_front_point_index p with Some i => i | None => 0%Z end =
  match crack_front_point_index p' with Some i => i | None => 0%Z end /\
  K_factor p = K_factor p' /\
  isParamValid (symmetry_plane p) = isParamValid (symmetry_plane p') /\
  t_stress p = t_stress p' /\
  poissons_ratio p = poissons_ratio p' /\
  ring_index p = ring_index p' /\
  q_function_type p = q_function_type p' /\
  isCoupled_temp p = isCoupled_temp p' /\
  hasMaterialProperty_thermal_expansion_coef p =
    hasMaterialProperty_thermal_expansion_coef p' /\
  mesh_dimension p = mesh_dimension p'.

(* ================================================================== *)
(** ** A configuration with all four terms

    The four-node element of [Demo] under a mechanical and a thermal load,
    on a three-dimensional front with a symmetry plane whose neighbouring
    segments have the lengths 1 and 7.  On ring 0 the weight q is 1 at the
    first two nodes and 0 at the two others; on every other ring it
    is 9. *)

Module Loaded.

Definition front : CrackFrontDefinition :=
  frame_of_rotation Demo.quarter_turn false 1 7 1
    (fun _ ring node =>
       if (ring =? 0)%Z
       then (if (node <? 12)%nat then 1 else 0)
       else 9)
    (fun _ _ _ => 9).

(** stress_yy = 2, strain_yy = 4, d(aux disp_x)/dx = 1,
    aux_stress = diag(1, 3, 1), d(disp_y)/dy = 1, dT/dy = 2, alpha = 1. *)
Definition element : Assembly :=
  {| _current_elem := Demo.quad4;
     qrule_n_points := 1;
     _JxW := fun _ => 1;
     _coord := fun _ => 1;
     fe_get_phi := fun _ _ => 0.25;
     fe_get_dphi := fun i _ =>
       match i with
       | 0%nat => mkVec 0 1 0
       | _ => vec_zero
       end;
     coupled_gradient_values := fun v _ =>
       match v with
       | disp_y => mkVec 0 1 0
       | temp => mkVec 0 2 0
       | _ => vec_zero
       end;
     _stress := fun _ => mkSymm 0 2 0 0 0 0;
     _strain := fun _ => mkSymm 0 4 0 0 0 0;
     _aux_stress := fun _ => Demo.diagonal 1 3 1;
     _aux_grad_disp := fun _ => cm_assign cm_zero [ entry 0 0 1 ];
     thermal_expansion_coef_values := fun _ => 1 |}.

(** Geometric ring 1, a symmetry plane, temperature coupled. *)
Definition object : InteractionIntegral :=
  Demo.object front (Some 1%Z) false GEOMETRY 1 true.

(** An object the constructor does not make: temperature coupled, and the
    thermal-expansion pointer null. *)
Definition without_coefficient : InteractionIntegral :=
  {| _crack_front_definition := front;
     _has_crack_front_point_index := true;
     _crack_front_point_index := 0%Z;
     _treat_as_2d := false;
     _grad_disp_z := grad_zero_ref;
     _has_temp := true;
     _grad_temp := coupledGradient temp;
     _current_instantaneous_thermal_expansion_coef := NULL;
     _K_factor := 2;
     _has_symmetry_plane := true;
     _t_stress := false;
     _poissons_ratio := 0.5;
     _ring_index := 1%Z;
     _ring_first := None;
     _q_function_type := GEOMETRY;
     _q_curr_elem := [];
     _phi_curr_elem := None;
     _dphi_curr_elem := None;
     _qp := 0%nat;
     _integral_value := 0 |}.

End Loaded.

(* ================================================================== *)
(** * Part II: properties *)

(* ================================================================== *)
(** ** Binary64 arithmetic *)

Lemma zero_finite x : is_zero x = true -> is_finite x = true.
Proof. unfold is_zero, is_finite. destruct (Prim2SF x); congruence. Qed.

Lemma zero_lit : is_zero 0 = true.
Proof. reflexivity. Qed.

Lemma add_zero x y :
  is_zero x = true -> is_zero y = true -> is_zero (x + y) = true.
Proof.
  unfold is_zero. rewrite add_spec.
  destruct (Prim2SF x) as [[|]| | |]; try discriminate;
    destruct (Prim2SF y) as [[|]| | |]; try discriminate; reflexivity.
Qed.

Lemma sub_zero x y :
  is_zero x = true -> is_zero y = true -> is_zero (x - y) = true.
Proof.
  unfold is_zero. rewrite sub_spec.
  destruct (Prim2SF x) as [[|]| | |]; try discriminate;
    destruct (Prim2SF y) as [[|]| | |]; try discriminate; reflexivity.
Qed.

Lemma mul_zero_l x y :
  is_zero x = true -> is_finite y = true -> is_zero (x * y) = true.
Proof.
  unfold is_zero, is_finite. rewrite mul_spec.
  destruct (Prim2SF x); try discriminate;
    destruct (Prim2SF y); try discriminate; reflexivity.
Qed.

Lemma mul_zero_r x y :
  is_finite x = true -> is_zero y = true -> is_zero (x * y) = true.
Proof.
  unfold is_zero, is_finite. rewrite mul_spec.
  destruct (Prim2SF x); try discriminate;
    destruct (Prim2SF y); try discriminate; reflexivity.
Qed.

Lemma div_zero_l x y :
  is_zero x = true -> is_divisor y = true -> is_zero (x / y) = true.
Proof.
  unfold is_zero, is_divisor. rewrite div_spec.
  destruct (Prim2SF x); try discriminate;
    destruct (Prim2SF y); try discriminate; reflexivity.
Qed.

(** Dividing anything by a zero never gives a finite number. *)
Lemma div_by_zero x y : is_zero y = true -> is_inf_or_nan (x / y) = true.
Proof.
  unfold is_zero, is_inf_or_nan, is_finite. rewrite div_spec.
  destruct (Prim2SF y); try discriminate;
    destruct (Prim2SF x); reflexivity.
Qed.

Lemma two_finite : is_finite 2 = true.
Proof. reflexivity. Qed.

Lemma two_divisor : is_divisor 2 = true.
Proof. reflexivity. Qed.

Lemma one_divisor : is_divisor 1 = true.
Proof. reflexivity. Qed.

Lemma digits2_pos_shift52 (m : positive) :
  Z.pos (digits2_pos (Pos.iter xO m 52)) = (Z.pos (digits2_pos m) + 52)%Z.
Proof. cbn [Pos.iter digits2_pos]. lia. Qed.

(** Multiplying by [1.0] on the left is exact for every binary64 value:
    the product of the mantissas is the mantissa shifted by 52 bits, and
    rounding shifts it back without loss. *)
Lemma mul_one_l (x : Real) : 1 * x = x.
Proof.
  apply Prim2SF_inj. rewrite mul_spec.
  pose proof (Prim2SF_valid x) as V.
  change (Prim2SF 1) with (S754_finite false 4503599627370496 (-52)).
  destruct (Prim2SF x) as [s | s | | s m e]; try reflexivity.
  unfold SF64mul, SFmul. cbn [xorb].
  cbn [valid_binary SpecFloat.valid_binary] in V.
  unfold bounded, canonical_mantissa in V.
  apply andb_prop in V. destruct V as [C B].
  apply Z.eqb_eq in C.
  change (Pos.mul 4503599627370496 m) with (Pos.iter xO m 52).
  unfold binary_round_aux, shr_fexp.
  unfold Zdigits2 at 1. rewrite digits2_pos_shift52.
  replace (Z.pos (digits2_pos m) + 52 + (-52 + e))%Z
    with (Z.pos (digits2_pos m) + e)%Z by lia.
  rewrite C.
  replace (e - (-52 + e))%Z with 52%Z by lia.
  cbn [shr shr_record_of_loc Pos.iter iter_pos shr_1 orb shr_m
       loc_of_shr_record round_nearest_even].
  replace (-52 + e + 52)%Z with e by lia.
  cbn [Zdigits2]. rewrite C. rewrite Z.sub_diag. cbn [shr shr_m].
  rewrite B. reflexivity.
Qed.

(** Distinct float literals are distinct values. *)
Lemma neq_by_spec (x y : Real) : Prim2SF x <> Prim2SF y -> x <> y.
Proof. intros H E. apply H. now rewrite E. Qed.

Create HintDb realz.
#[export] Hint Resolve zero_finite zero_lit add_zero sub_zero mul_zero_l
  mul_zero_r div_zero_l two_finite two_divisor one_divisor : realz.

(* ================================================================== *)
(** ** Lemmas on the embedding *)

Lemma vector_at_nth (q : list Real) (i : nat) :
  (i < List.length q)%nat -> vector_at q i = Ok (nth i q 0).
Proof.
  intros H. unfold vector_at.
  destruct (nth_error q i) as [a|] eqn:E.
  - now rewrite (nth_error_nth q i 0 E).
  - apply nth_error_None in E. lia.
Qed.

(** The interpolation loop reads [_q_curr_elem] within its bounds and
    computes the two sums. *)
Lemma interpolation_loop (phi : nat -> nat -> Real)
    (dphi : nat -> nat -> RealVectorValue) (q : list Real) (dims qp : nat)
    (l : list nat) (s : Real) (g : RealVectorValue) :
  Forall (fun i => (i < List.length q)%nat) l ->
  fold_left (interpolation_step phi dphi q dims qp) l (Ok (s, g)) =
  Ok (fold_left (fun acc i => acc + phi i qp * nth i q 0) l s,
      fold_left (fun g i =>
          fold_left (fun g j =>
              vec_set g j (vec_get g j + vec_get (dphi i qp) j * nth i q 0))
            (seq 0 dims) g) l g).
Proof.
  revert s g. induction l as [|i l IH]; intros s g Hall.
  - reflexivity.
  - inversion Hall as [|? ? Hi Hl]; subst.
    cbn [fold_left]. unfold interpolation_step at 2. cbn [obind].
    rewrite (vector_at_nth q i Hi). cbn [obind].
    apply IH. exact Hl.
Qed.

Lemma obind_Ok {A B} (m : outcome A) (k : A -> outcome B) (a : A) :
  m = Ok a -> obind m k = k a.
Proof. intros ->. reflexivity. Qed.

Lemma Ok_inj {A} (a b : A) : Ok a = Ok b -> a = b.
Proof. congruence. Qed.

Lemma seq_below (n len : nat) :
  (n <= len)%nat -> Forall (fun i => (i < len)%nat) (seq 0 n).
Proof.
  intros H. apply Forall_forall. intros i Hi. apply in_seq in Hi. lia.
Qed.

Lemma ready_inv (self : InteractionIntegral) (asm : Assembly) :
  ready self asm = true ->
  _phi_curr_elem self = Some (phi_of self) /\
  _dphi_curr_elem self = Some (dphi_of self) /\
  at_quadrature_point asm (_qp self) = Ok (_qp self) /\
  (n_nodes (_current_elem asm) <= List.length (_q_curr_elem self))%nat /\
  (_has_temp self = true ->
   _current_instantaneous_thermal_expansion_coef self = RealProperty).
Proof.
  unfold ready, phi_of, dphi_of, at_quadrature_point. intros H.
  apply andb_prop in H. destruct H as [H Hc].
  apply andb_prop in H. destruct H as [H Hn].
  apply andb_prop in H. destruct H as [H Hq].
  apply andb_prop in H. destruct H as [Hp Hd].
  apply Nat.leb_le in Hn. rewrite Hq.
  destruct (_phi_curr_elem self); [|discriminate].
  destruct (_dphi_curr_elem self); [|discriminate].
  repeat split; auto.
  intros Ht. rewrite Ht in Hc. cbn in Hc.
  destruct (_current_instantaneous_thermal_expansion_coef self);
    [discriminate | reflexivity].
Qed.

Lemma assign_row0 (a b c : Real) :
  cm_assign cm_zero [ entry 0 0 a; entry 0 1 b; entry 0 2 c ] =
  mkCM a 0 0 b 0 0 c 0 0.
Proof. reflexivity. Qed.

Lemma assign_all (a00 a01 a02 a10 a11 a12 a20 a21 a22 : Real) :
  cm_assign cm_zero
    [ entry 0 0 a00; entry 0 1 a01; entry 0 2 a02;
      entry 1 0 a10; entry 1 1 a11; entry 1 2 a12;
      entry 2 0 a20; entry 2 1 a21; entry 2 2 a22 ] =
  mkCM a00 a10 a20 a01 a11 a21 a02 a12 a22.
Proof. reflexivity. Qed.

Lemma crack_direction_0 : vec_get (vec_set (mkVec 0 0 0) 0 1) 0 = 1.
Proof. reflexivity. Qed.

(** Inside an element pass [computeQpIntegral] reaches its [return], with
    the locals the specification describes. *)
Lemma computeQpIntegral_locals_ready (self : InteractionIntegral)
    (asm : Assembly) :
  ready self asm = true ->
  computeQpIntegral_locals self asm = Ok (expected_locals self asm).
Proof.
  intros R. destruct (ready_inv self asm R) as (Hp & Hd & Hq & Hn & Hc).
  unfold computeQpIntegral_locals. rewrite Hp, Hd, Hq. cbn [deref obind].
  erewrite obind_Ok
    by (apply (interpolation_loop (phi_of self) (dphi_of self)),
          seq_below; exact Hn).
  rewrite !assign_row0, !assign_all, crack_direction_0, !mul_one_l.
  unfold expected_locals, Spec.term4, Spec.norm.
  destruct (treatAs2D (_crack_front_definition self));
    destruct (_has_temp self) eqn:Ht;
    try rewrite (Hc eq_refl); reflexivity.
Qed.

(** *** The monad of member functions *)

Lemma bind_modify {B} (f : InteractionIntegral -> InteractionIntegral)
    (k : unit -> M B) (s : InteractionIntegral) :
  bind (modify f) k s = k tt (f s).
Proof.
  unfold bind, modify. destruct (k tt (f s)) as [[[b s'] c]| |]; reflexivity.
Qed.

Lemma bind_this {B} (k : InteractionIntegral -> M B) (s : InteractionIntegral) :
  bind this k s = k s s.
Proof.
  unfold bind, this. destruct (k s s) as [[[b s'] c]| |]; reflexivity.
Qed.

Lemma bind_ret {A B} (a : A) (k : A -> M B) (s : InteractionIntegral) :
  bind (ret a) k s = k a s.
Proof.
  unfold bind, ret. destruct (k a s) as [[[b s'] c]| |]; reflexivity.
Qed.

Lemma bind_Ok {A B} (m : M A) (k : A -> M B) (s s' : InteractionIntegral)
    (a : A) (c : list QCall) :
  m s = Ok (a, s', c) ->
  bind m k s =
  match k a s' with
  | Ok (b, s'', c') => Ok (b, s'', c ++ c')
  | MooseError msg => MooseError msg
  | Fault => Fault
  end.
Proof. intros H. unfold bind. rewrite H. reflexivity. Qed.

Lemma bind_invoke {B} (c : QCall) (k : Real -> M B) (s : InteractionIntegral) :
  bind (invoke c) k s =
  match k (perform (_crack_front_definition s) c) s with
  | Ok (b, s', c') => Ok (b, s', c :: c')
  | MooseError msg => MooseError msg
  | Fault => Fault
  end.
Proof. reflexivity. Qed.

Lemma bind_lift_Ok {A B} (f : InteractionIntegral -> outcome A) (k : A -> M B)
    (s : InteractionIntegral) (a : A) :
  f s = Ok a -> bind (lift f) k s = k a s.
Proof.
  intros H. unfold bind, lift. rewrite H.
  destruct (k a s) as [[[b s'] c]| |]; reflexivity.
Qed.

(** *** One element *)

Lemma computeQpIntegral_ready (self : InteractionIntegral) (asm : Assembly) :
  ready self asm = true ->
  computeQpIntegral self asm =
  Ok (eq (expected_locals self asm) / q_avg_seg (expected_locals self asm)).
Proof.
  intros R. unfold computeQpIntegral.
  rewrite (computeQpIntegral_locals_ready self asm R). reflexivity.
Qed.

Lemma in_element_ready (self : InteractionIntegral) (asm : Assembly) (qp : nat) :
  coef_ok self = true -> (qp < qrule_n_points asm)%nat ->
  ready (in_element self asm qp) asm = true.
Proof.
  intros H Hqp. apply Nat.ltb_lt in Hqp.
  unfold ready, in_element, element_calls.
  cbn [with_members _phi_curr_elem _dphi_curr_elem _qp _q_curr_elem _has_temp
       _current_instantaneous_thermal_expansion_coef isParamValid andb].
  rewrite Hqp, !length_map, length_seq, Nat.leb_refl. exact H.
Qed.

Lemma last_cons {A} (l : list A) (x d : A) : last (x :: l) d = last l x.
Proof.
  revert x d. induction l as [|y l IH]; intros x d.
  - reflexivity.
  - change (last (x :: y :: l) d) with (last (y :: l) d).
    now rewrite !IH.
Qed.

Section ElementLoops.

Variables (self : InteractionIntegral) (asm : Assembly).

Let cfd := _crack_front_definition self.

Lemma node_loop (c : nat -> QCall) (l : list nat) (q : list Real)
    (t2d : bool) (phi : option (nat -> nat -> Real))
    (dphi : option (nat -> nat -> RealVectorValue)) (qp : nat) (v : Real) :
  for_each l (fun i =>
      q_this_node <<- invoke (c i) ;;
      modify (fun s => set_q_curr_elem (_q_curr_elem s ++ [q_this_node]) s))
    (with_members self t2d q phi dphi qp v) =
  Ok (tt,
      with_members self t2d (q ++ map (perform cfd) (map c l)) phi dphi qp v,
      map c l).
Proof.
  revert q. induction l as [|i l IH]; intros q.
  - cbn. now rewrite app_nil_r.
  - cbn [for_each map].
    unfold bind at 1. rewrite bind_invoke.
    unfold modify at 1.
    change (set_q_curr_elem _ (with_members self t2d q phi dphi qp v))
      with (with_members self t2d
              (q ++ [perform cfd (c i)]) phi dphi qp v).
    rewrite IH. cbn [app]. rewrite <- app_assoc. reflexivity.
Qed.

Hypothesis coef : coef_ok self = true.

Lemma quadrature_loop (l : list nat) (sum : Real) (qp0 : nat) :
  Forall (fun qp => (qp < qrule_n_points asm)%nat) l ->
  for_accum l sum (fun sum qp =>
      modify (set_qp qp) ;;;
      integrand <<- lift (fun s => computeQpIntegral s asm) ;;
      ret (sum + _JxW asm qp * _coord asm qp * integrand))
    (in_element self asm qp0) =
  Ok (fold_left (fun sum qp =>
          sum + _JxW asm qp * _coord asm qp * integrand_at self asm qp) l sum,
      in_element self asm (last l qp0), []).
Proof.
  intros Hl. revert sum qp0.
  induction Hl as [|qp l Hqp Hl IH]; intros sum qp0.
  - reflexivity.
  - cbn [for_accum fold_left].
    unfold bind at 1. rewrite bind_modify.
    change (set_qp qp (in_element self asm qp0)) with (in_element self asm qp).
    rewrite (bind_lift_Ok (fun s => computeQpIntegral s asm) _
               (in_element self asm qp) _
               (computeQpIntegral_ready _ _
                  (in_element_ready self asm qp coef Hqp))).
    unfold ret at 1. rewrite IH. cbn [app].
    rewrite last_cons. reflexivity.
Qed.

End ElementLoops.

(** [computeIntegral] returns on every object that passed the constructor's
    check: it calls the generator once per node, leaves [_qp] at the end of
    the quadrature loop and the two pointers without a live target, and
    returns the quadrature sum. *)
Lemma computeIntegral_run (self : InteractionIntegral) (asm : Assembly) :
  coef_ok self = true ->
  computeIntegral asm self =
  Ok (element_integral self asm,
      after_element self asm,
      element_calls self asm).
Proof.
  intros coef.
  assert (Q : Forall (fun qp => (qp < qrule_n_points asm)%nat)
                (seq 0 (qrule_n_points asm)))
    by (apply Forall_forall; intros qp Hqp; apply in_seq in Hqp; lia).
  unfold computeIntegral.
  rewrite !bind_modify, bind_this.
  change (set_q_curr_elem [] _)
    with (with_members self (_treat_as_2d self) [] (Some (fe_get_phi asm))
            (Some (fe_get_dphi asm)) (_qp self) (_integral_value self)).
  assert (E : forall s, _q_function_type
                (with_members self (_treat_as_2d self) []
                   (Some (fe_get_phi asm)) (Some (fe_get_dphi asm))
                   (_qp self) s) = _q_function_type self) by reflexivity.
  destruct (_q_function_type self) eqn:T.
  - erewrite bind_Ok;
      [| rewrite E;
         apply (node_loop self
                  (fun i => CallDomainIntegralQFunction
                     (_crack_front_point_index self)
                     (uint_sub (_ring_index self) 1)
                     (get_node (_current_elem asm) i)))].
    replace (map _ (seq 0 (n_nodes (_current_elem asm))))
      with (element_calls self asm)
      by (apply map_ext; intros i; unfold q_call; now rewrite T).
    cbn [app].
    erewrite bind_Ok;
      [| apply (quadrature_loop self asm coef _ 0 (_qp self) Q) ].
    rewrite !bind_modify. unfold ret. rewrite !app_nil_r.
    reflexivity.
  - erewrite bind_Ok;
      [| rewrite E;
         apply (node_loop self
                  (fun i => CallDomainIntegralTopologicalQFunction
                     (_crack_front_point_index self)
                     (uint_sub (_ring_index self) 0)
                     (get_node (_current_elem asm) i)))].
    replace (map _ (seq 0 (n_nodes (_current_elem asm))))
      with (element_calls self asm)
      by (apply map_ext; intros i; unfold q_call; now rewrite T).
    cbn [app].
    erewrite bind_Ok;
      [| apply (quadrature_loop self asm coef _ 0 (_qp self) Q) ].
    rewrite !bind_modify. unfold ret. rewrite !app_nil_r.
    reflexivity.
Qed.

Lemma construct_example (cfd : CrackFrontDefinition) (sym : option Z)
    (ts : bool) (kind : QFunctionType) (ring : Z) (with_temp : bool) :
  construct (Demo.params cfd sym ts kind ring with_temp) =
  Ok (Demo.constructed cfd sym ts kind ring with_temp).
Proof. destruct kind, with_temp; reflexivity. Qed.

Example thermal_integrand :
  computeQpIntegral (in_element Demo.object2d (Demo.thermal 1 2) 0)
    (Demo.thermal 1 2) = Ok 10.
Proof. vm_compute. reflexivity. Qed.

Example mechanical_integrand :
  computeQpIntegral (in_element Demo.object2d Demo.mechanical 0)
    Demo.mechanical = Ok 1.
Proof. vm_compute. reflexivity. Qed.

Example thermal_pass :
  returned (evaluate [Demo.thermal3; Demo.thermal3] [] Demo.object2d)
  = Ok 12.
Proof. vm_compute. reflexivity. Qed.

Example unloaded_pass :
  returned (evaluate [Demo.unloaded] [] (Demo.object3d 1 1)) = Ok 1.
Proof. vm_compute. reflexivity. Qed.

Example degenerate_front :
  computeQpIntegral
    (in_element (Demo.object3d 0 0) (Demo.thermal 1 2) 0)
    (Demo.thermal 1 2) = Ok infinity.
Proof. vm_compute. reflexivity. Qed.

(* ================================================================== *)
(** ** The evaluation pass *)

Lemma getValue_run (others : list Real) (self : InteractionIntegral) :
  returned (getValue others self) =
  Ok (_K_factor self *
      (if _t_stress self && negb (_treat_as_2d self)
       then gatherSum others (_integral_value self) +
            _poissons_ratio self *
            getCrackFrontTangentialStrain (_crack_front_definition self)
              (_crack_front_point_index self)
       else gatherSum others (_integral_value self))).
Proof.
  unfold getValue. rewrite bind_modify, bind_this.
  change (_t_stress (set_integral_value _ self)) with (_t_stress self).
  change (_treat_as_2d (set_integral_value _ self)) with (_treat_as_2d self).
  destruct (_t_stress self && negb (_treat_as_2d self)).
  - rewrite bind_modify, bind_this. reflexivity.
  - rewrite bind_ret, bind_this. reflexivity.
Qed.

Lemma returned_bind {A B} (m : M A) (k : A -> M B)
    (s s' : InteractionIntegral) (a : A) (c : list QCall) :
  m s = Ok (a, s', c) -> returned (bind m k s) = returned (k a s').
Proof.
  intros H. rewrite (bind_Ok m k s s' a c H).
  destruct (k a s') as [[[b s''] c']| |]; reflexivity.
Qed.

Section Pass.

Variable self : InteractionIntegral.
Hypothesis coef : coef_ok self = true.

Lemma execute_run (asm : Assembly) (t2d : bool) (q : list Real)
    (phi : option (nat -> nat -> Real))
    (dphi : option (nat -> nat -> RealVectorValue)) (qp : nat) (v : Real) :
  execute asm (with_members self t2d q phi dphi qp v) =
  Ok (tt,
      with_members self t2d
        (map (perform (_crack_front_definition self)) (element_calls self asm))
        None None
        (qrule_n_points asm) (v + element_integral self asm),
      element_calls self asm).
Proof.
  unfold execute.
  rewrite (bind_Ok _ _ _ _ _ _
             (computeIntegral_run (with_members self t2d q phi dphi qp v)
                asm coef)).
  unfold modify. rewrite app_nil_r. reflexivity.
Qed.

Lemma elements_run (elements : list Assembly) :
  forall (t2d : bool) (q : list Real) (phi : option (nat -> nat -> Real))
         (dphi : option (nat -> nat -> RealVectorValue)) (qp : nat) (v : Real),
  exists q' phi' dphi' qp' calls,
    fold_right (fun asm rest => execute asm ;;; rest) (ret tt) elements
      (with_members self t2d q phi dphi qp v) =
    Ok (tt, with_members self t2d q' phi' dphi' qp' (raw_sum self elements v),
        calls).
Proof.
  induction elements as [|asm elements IH]; intros t2d q phi dphi qp v.
  - exists q, phi, dphi, qp, []. reflexivity.
  - cbn [fold_right].
    rewrite (bind_Ok _ _ _ _ _ _ (execute_run asm t2d q phi dphi qp v)).
    destruct (IH t2d
                (map (perform (_crack_front_definition self))
                   (element_calls self asm))
                None None
                (qrule_n_points asm) (v + element_integral self asm))
      as (q' & phi' & dphi' & qp' & calls & E).
    rewrite E. now exists q', phi', dphi', qp', (element_calls self asm ++ calls).
Qed.

(** A pass returns the finalised reduced sum. *)
Lemma evaluate_run (elements : list Assembly) (others : list Real) :
  returned (evaluate elements others self) =
  Ok (finalized self (gatherSum others (raw_sum self elements 0))).
Proof.
  unfold evaluate, initialize. rewrite bind_modify.
  change (set_integral_value 0 self)
    with (with_members self (_treat_as_2d self) (_q_curr_elem self)
            (_phi_curr_elem self) (_dphi_curr_elem self) (_qp self) 0).
  destruct (elements_run elements (_treat_as_2d self) (_q_curr_elem self)
              (_phi_curr_elem self) (_dphi_curr_elem self) (_qp self) 0)
    as (q' & phi' & dphi' & qp' & calls & E).
  rewrite (returned_bind _ _ _ _ _ _ E), getValue_run. reflexivity.
Qed.

Lemma computeIntegral_returned (asm : Assembly) :
  returned (computeIntegral asm self) = Ok (element_integral self asm).
Proof. now rewrite (computeIntegral_run self asm coef). Qed.

End Pass.

Lemma construct_coef_ok (parameters : InputParameters)
    (self : InteractionIntegral) :
  construct parameters = Ok self -> coef_ok (initialSetup self) = true.
Proof.
  unfold construct.
  destruct (isCoupled_temp parameters) eqn:T;
    destruct (hasMaterialProperty_thermal_expansion_coef parameters) eqn:P;
    destruct (QFunctionType_eqb (q_function_type parameters) TOPOLOGY);
    cbn; intros H; try discriminate; injection H as <-;
    reflexivity.
Qed.

(* ================================================================== *)
(** ** The pointwise integrand *)

(** The entries of a row-0 tensor. *)
Lemma row0_tensor_entries (g : RealVectorValue) (j : nat) :
  (j < 3)%nat ->
  cm_get (Spec.row0_tensor g) 0 j = vec_get g j /\
  cm_get (Spec.row0_tensor g) 1 j = 0 /\
  cm_get (Spec.row0_tensor g) 2 j = 0.
Proof.
  intros Hj. destruct j as [|[|[|j]]]; [| | |lia]; repeat split.
Qed.

Lemma row0_of_entries (m : ColumnMajorMatrix) (j : nat) :
  (j < 3)%nat ->
  cm_get (Spec.row0_of m) 0 j = cm_get m 0 j /\
  cm_get (Spec.row0_of m) 1 j = 0 /\
  cm_get (Spec.row0_of m) 2 j = 0.
Proof.
  intros Hj. destruct j as [|[|[|j]]]; [| | |lia]; repeat split.
Qed.

(** C1.  Inside the quadrature loop of an element pass
    [computeQpIntegral] returns
    [(term1 + term2 - term3 + term4) / q_avg_seg], the sum doubled before
    the division exactly when a symmetry plane is declared.  The terms are
    formed from the data of the quadrature point: q and its gradient are
    interpolated from the nodal values with the shape functions; the
    q-gradient, the displacement gradient, the stress, the strain and the
    temperature gradient are rotated to the crack-front frame; [dq] has the
    rotated q-gradient as its row 0 and zeros elsewhere; [aux_du] has row 0
    of the auxiliary displacement gradient and zeros elsewhere;
    [term1 = aux_du : (dq . stress_cf)],
    [term2 = sum_i grad_disp_cf(i,0) * (dq . aux_stress)(0,i)],
    [term3 = dq(0,0) * (aux_stress : strain_cf)],
    [term4 = q * trace(aux_stress) * alpha * grad_temp_cf(0)] if temperature
    is coupled and 0 otherwise, and [q_avg_seg] is the normalisation
    divisor. *)
Theorem computeQpIntegral_four_terms (self : InteractionIntegral)
    (asm : Assembly) :
  ready self asm = true ->
  exists l : QpLocals,
    computeQpIntegral_locals self asm = Ok l /\
    computeQpIntegral self asm =
      Ok ((if _has_symmetry_plane self
           then (term1 l + term2 l - term3 l + term4 l) * 2
           else term1 l + term2 l - term3 l + term4 l) / q_avg_seg l) /\
    scalar_q l =
      Spec.interpolated_q (phi_of self) (_q_curr_elem self)
        (n_nodes (_current_elem asm)) (_qp self) /\
    grad_q l =
      Spec.interpolated_grad_q (dphi_of self) (_q_curr_elem self)
        (n_nodes (_current_elem asm)) (dim (_current_elem asm)) (_qp self) /\
    grad_q_cf l =
      rotateVectorToCrackFrontCoords (_crack_front_definition self)
        (grad_q l) (_crack_front_point_index self) /\
    grad_disp_cf l =
      rotateToCrackFrontCoords (_crack_front_definition self)
        (Spec.gradient_matrix
           (coupled_gradient_values asm disp_x (_qp self))
           (coupled_gradient_values asm disp_y (_qp self))
           (grad_at asm (_grad_disp_z self) (_qp self)))
        (_crack_front_point_index self) /\
    stress_cf l =
      rotateToCrackFrontCoords (_crack_front_definition self)
        (Spec.dense (_stress asm (_qp self))) (_crack_front_point_index self) /\
    strain_cf l =
      rotateToCrackFrontCoords (_crack_front_definition self)
        (Spec.dense (_strain asm (_qp self))) (_crack_front_point_index self) /\
    grad_temp_cf l =
      rotateVectorToCrackFrontCoords (_crack_front_definition self)
        (grad_at asm (_grad_temp self) (_qp self))
        (_crack_front_point_index self) /\
    dq l = Spec.row0_tensor (grad_q_cf l) /\
    (forall j, (j < 3)%nat ->
       cm_get (dq l) 0 j = vec_get (grad_q_cf l) j /\
       cm_get (dq l) 1 j = 0 /\ cm_get (dq l) 2 j = 0) /\
    aux_du l = Spec.row0_of (_aux_grad_disp asm (_qp self)) /\
    (forall j, (j < 3)%nat ->
       cm_get (aux_du l) 0 j = cm_get (_aux_grad_disp asm (_qp self)) 0 j /\
       cm_get (aux_du l) 1 j = 0 /\ cm_get (aux_du l) 2 j = 0) /\
    term1 l = cm_doubleContraction (aux_du l) (cm_mul (dq l) (stress_cf l)) /\
    term2 l =
      cm_get (grad_disp_cf l) 0 0 *
        cm_get (cm_mul (dq l) (_aux_stress asm (_qp self))) 0 0 +
      cm_get (grad_disp_cf l) 1 0 *
        cm_get (cm_mul (dq l) (_aux_stress asm (_qp self))) 0 1 +
      cm_get (grad_disp_cf l) 2 0 *
        cm_get (cm_mul (dq l) (_aux_stress asm (_qp self))) 0 2 /\
    term3 l =
      cm_get (dq l) 0 0 *
        cm_doubleContraction (_aux_stress asm (_qp self)) (strain_cf l) /\
    term4 l =
      (if _has_temp self
       then scalar_q l *
            (cm_get (_aux_stress asm (_qp self)) 0 0 +
             cm_get (_aux_stress asm (_qp self)) 1 1 +
             cm_get (_aux_stress asm (_qp self)) 2 2) *
            thermal_expansion_coef_values asm (_qp self) *
            vec_get (grad_temp_cf l) 0
       else 0) /\
    q_avg_seg l =
      (if treatAs2D (_crack_front_definition self)
       then 1
       else (getCrackFrontForwardSegmentLength (_crack_front_definition self)
               (_crack_front_point_index self) +
             getCrackFrontBackwardSegmentLength (_crack_front_definition self)
               (_crack_front_point_index self)) / 2) /\
    eq l =
      (if _has_symmetry_plane self
       then (term1 l + term2 l - term3 l + term4 l) * 2
       else term1 l + term2 l - term3 l + term4 l) /\
    stress l = Spec.dense (_stress asm (_qp self)) /\
    strain l = Spec.dense (_strain asm (_qp self)) /\
    grad_disp l =
      Spec.gradient_matrix
        (coupled_gradient_values asm disp_x (_qp self))
        (coupled_gradient_values asm disp_y (_qp self))
        (grad_at asm (_grad_disp_z self) (_qp self)).
Proof.
  intros R. exists (expected_locals self asm).
  split; [exact (computeQpIntegral_locals_ready self asm R)|].
  split; [rewrite (computeQpIntegral_ready self asm R); reflexivity|].
  do 8 (split; [reflexivity|]).
  split; [intros j Hj; apply row0_tensor_entries; exact Hj|].
  split; [reflexivity|].
  split; [intros j Hj; apply row0_of_entries; exact Hj|].
  repeat split.
Qed.

Lemma computeQpIntegral_four_terms_witness :
  computeQpIntegral
    (in_element Loaded.object Loaded.element 0) Loaded.element
    = Ok ((2 + 1 - 4 + 5) * 2 / 4) /\
  exists l : QpLocals,
    computeQpIntegral_locals
      (in_element Loaded.object Loaded.element 0) Loaded.element = Ok l /\
    scalar_q l = 0.5 /\
    term1 l = 2 /\ term2 l = 1 /\ term3 l = 4 /\ term4 l = 5 /\
    q_avg_seg l = 4.
Proof.
  destruct (computeQpIntegral_four_terms
              (in_element Loaded.object Loaded.element 0)
              Loaded.element eq_refl)
    as (l & Hl & Hv & Hq & Hg & Hgc & Hdc & Hsc & Hec & Htc & Hdq & _ &
        Hau & _ & H1 & H2 & H3 & H4 & Hn & _).
  assert (T : scalar_q l = 0.5 /\ term1 l = 2 /\ term2 l = 1 /\
              term3 l = 4 /\ term4 l = 5 /\ q_avg_seg l = 4).
  { rewrite H1, H2, H3, H4, Hn, Hau, Hdq, Hgc, Hdc, Hsc, Hec, Htc, Hg, Hq.
    repeat split. }
  split.
  - destruct T as (_ & T1 & T2 & T3 & T4 & Tn).
    rewrite Hv, T1, T2, T3, T4, Tn. reflexivity.
  - exists l. split; [exact Hl | exact T].
Defined.

(* ================================================================== *)
(** ** Normalisation and the two-dimensional front *)

(** C4.  On a front treated as 2D the divisor of the integrand is exactly
    1 and, once [initialSetup] has run, [getValue] adds no T-stress term
    whatever [_t_stress] is; on any other front the divisor is the average
    of the forward and backward segment lengths at the crack-front
    point. *)
Theorem treat_as_2d_reduction (self : InteractionIntegral) (asm : Assembly) :
  ready self asm = true ->
  exists l : QpLocals,
    computeQpIntegral_locals self asm = Ok l /\
    computeQpIntegral self asm = Ok (eq l / q_avg_seg l) /\
    (treatAs2D (_crack_front_definition self) = true ->
       q_avg_seg l = 1 /\
       forall others,
         returned (getValue others (initialSetup self)) =
         Ok (_K_factor self * gatherSum others (_integral_value self))) /\
    (treatAs2D (_crack_front_definition self) = false ->
       q_avg_seg l =
       (getCrackFrontForwardSegmentLength (_crack_front_definition self)
          (_crack_front_point_index self) +
        getCrackFrontBackwardSegmentLength (_crack_front_definition self)
          (_crack_front_point_index self)) / 2).
Proof.
  intros R. exists (expected_locals self asm).
  split; [exact (computeQpIntegral_locals_ready self asm R)|].
  split; [exact (computeQpIntegral_ready self asm R)|].
  split; intros T.
  - split.
    + cbn [expected_locals q_avg_seg]. rewrite T. reflexivity.
    + intros others. rewrite getValue_run.
      change (_treat_as_2d (initialSetup self))
        with (treatAs2D (_crack_front_definition self)).
      rewrite T, andb_false_r. reflexivity.
  - cbn [expected_locals q_avg_seg]. rewrite T. reflexivity.
Qed.

Lemma treat_as_2d_reduction_witness :
  exists l : QpLocals,
    computeQpIntegral_locals
      (in_element Demo.object2d (Demo.thermal 1 2) 0)
      (Demo.thermal 1 2) = Ok l /\
    q_avg_seg l = 1 /\
    returned (getValue [] (initialSetup
                (in_element Demo.object2d (Demo.thermal 1 2) 0)))
    = Ok (2 * 0).
Proof.
  destruct (treat_as_2d_reduction
              (in_element Demo.object2d (Demo.thermal 1 2) 0)
              (Demo.thermal 1 2) eq_refl)
    as (l & Hl & _ & H2d & _).
  destruct (H2d eq_refl) as [Hq Hv].
  exists l. split; [exact Hl|]. split; [exact Hq|]. exact (Hv []).
Defined.

(* ================================================================== *)
(** ** The thermal term *)

(** C5.  [term4] is exactly [0.0] when temperature is not coupled;
    otherwise it is the product of the q interpolated from the nodal
    values, the trace of the auxiliary stress, the instantaneous
    thermal-expansion coefficient at the point and the x1-component of the
    temperature gradient rotated to the crack-front frame, and of nothing
    else.  It enters the returned value as the fourth summand.  With
    q = 1, trace 5, coefficient 1 and gradient 2 it is 10. *)
Theorem thermal_term_gating (self : InteractionIntegral) (asm : Assembly) :
  ready self asm = true ->
  exists l : QpLocals,
    computeQpIntegral_locals self asm = Ok l /\
    scalar_q l =
      Spec.interpolated_q (phi_of self) (_q_curr_elem self)
        (n_nodes (_current_elem asm)) (_qp self) /\
    grad_temp_cf l =
      rotateVectorToCrackFrontCoords (_crack_front_definition self)
        (grad_at asm (_grad_temp self) (_qp self))
        (_crack_front_point_index self) /\
    (_has_temp self = false -> term4 l = 0) /\
    (_has_temp self = true ->
       term4 l =
       Spec.thermal_term (scalar_q l)
         (Spec.trace (_aux_stress asm (_qp self)))
         (thermal_expansion_coef_values asm (_qp self))
         (vec_get (grad_temp_cf l) 0)) /\
    (_has_temp self = true ->
     scalar_q l = 1 ->
     Spec.trace (_aux_stress asm (_qp self)) = 5 ->
     thermal_expansion_coef_values asm (_qp self) = 1 ->
     vec_get (grad_temp_cf l) 0 = 2 ->
     term4 l = 10) /\
    computeQpIntegral self asm =
      Ok ((if _has_symmetry_plane self
           then (term1 l + term2 l - term3 l + term4 l) * 2
           else term1 l + term2 l - term3 l + term4 l) / q_avg_seg l) /\
    computeQpIntegral self asm =
      Ok (integrand_with_aux_stress self asm (_aux_stress asm (_qp self))).
Proof.
  intros R. exists (expected_locals self asm).
  split; [exact (computeQpIntegral_locals_ready self asm R)|].
  split; [reflexivity|].
  split; [reflexivity|].
  rewrite (computeQpIntegral_ready self asm R).
  cbn [expected_locals term4 scalar_q grad_temp_cf].
  unfold Spec.term4.
  split; [|split; [|split; [|split]]].
  - intros ->. reflexivity.
  - intros ->. reflexivity.
  - intros -> Hq Ht Ha Hg. rewrite Hq, Ht, Ha, Hg. reflexivity.
  - reflexivity.
  - reflexivity.
Qed.

Lemma thermal_term_gating_witness :
  computeQpIntegral
    (in_element Demo.object2d (Demo.thermal 1 2) 0) (Demo.thermal 1 2)
    = Ok 10 /\
  exists l : QpLocals,
    computeQpIntegral_locals
      (in_element Demo.object2d (Demo.thermal 1 2) 0)
      (Demo.thermal 1 2) = Ok l /\
    scalar_q l = 1 /\
    term4 l = 10.
Proof.
  destruct (thermal_term_gating
              (in_element Demo.object2d (Demo.thermal 1 2) 0)
              (Demo.thermal 1 2) eq_refl)
    as (l & Hl & Hq & Hg & _ & _ & H10 & _ & Hv).
  split; [exact Hv|].
  exists l. split; [exact Hl|]. split; [exact Hq|].
  apply H10.
  - reflexivity.
  - exact Hq.
  - reflexivity.
  - reflexivity.
  - rewrite Hg. reflexivity.
Defined.

(* ================================================================== *)
(** ** The finalised value *)

(** C3.  [getValue] returns [_K_factor] times the reduced sum of the
    element contributions, to which [_poissons_ratio] times the tangential
    strain at the crack-front point is added once, and only when the
    T-stress was requested and the front is not treated as 2D.  Two
    elements contributing 3.0 each on a 2D front, with no symmetry plane
    and no T-stress, give [K_factor * 6.0]. *)
Theorem getValue_finalizes (parameters : InputParameters)
    (self : InteractionIntegral) :
  construct parameters = Ok self ->
  (forall others s,
     returned (getValue others s) =
     Ok (_K_factor s *
         (if _t_stress s && negb (_treat_as_2d s)
          then gatherSum others (_integral_value s) +
               _poissons_ratio s *
               getCrackFrontTangentialStrain (_crack_front_definition s)
                 (_crack_front_point_index s)
          else gatherSum others (_integral_value s)))) /\
  (forall elements others,
     returned (evaluate elements others (initialSetup self)) =
     Ok (K_factor parameters *
         (if t_stress parameters &&
             negb (treatAs2D (crack_front_definition parameters))
          then gatherSum others (raw_sum (initialSetup self) elements 0) +
               poissons_ratio parameters *
               getCrackFrontTangentialStrain
                 (crack_front_definition parameters)
                 (_crack_front_point_index self)
          else gatherSum others (raw_sum (initialSetup self) elements 0)))) /\
  (forall e1 e2,
     treatAs2D (crack_front_definition parameters) = true ->
     symmetry_plane parameters = None ->
     t_stress parameters = false ->
     returned (computeIntegral e1 (initialSetup self)) = Ok 3 ->
     returned (computeIntegral e2 (initialSetup self)) = Ok 3 ->
     returned (evaluate [e1; e2] [] (initialSetup self)) =
     Ok (K_factor parameters * 6)).
Proof.
  intros C. pose proof (construct_coef_ok parameters self C) as coef.
  assert (F : _K_factor self = K_factor parameters /\
              _t_stress self = t_stress parameters /\
              _poissons_ratio self = poissons_ratio parameters /\
              _crack_front_definition self = crack_front_definition parameters).
  { revert C. unfold construct.
    destruct (isCoupled_temp parameters &&
              match (if hasMaterialProperty_thermal_expansion_coef parameters
                     then RealProperty else NULL) with
              | NULL => true
              | RealProperty => false
              end); [discriminate|].
    destruct (QFunctionType_eqb (q_function_type parameters) TOPOLOGY);
      intros [= <-]; repeat split. }
  destruct F as (FK & FT & FP & FC).
  assert (E : forall elements others,
     returned (evaluate elements others (initialSetup self)) =
     Ok (K_factor parameters *
         (if t_stress parameters &&
             negb (treatAs2D (crack_front_definition parameters))
          then gatherSum others (raw_sum (initialSetup self) elements 0) +
               poissons_ratio parameters *
               getCrackFrontTangentialStrain
                 (crack_front_definition parameters)
                 (_crack_front_point_index self)
          else gatherSum others (raw_sum (initialSetup self) elements 0)))).
  { intros elements others.
    rewrite (evaluate_run (initialSetup self) coef). unfold finalized.
    change (_K_factor (initialSetup self)) with (_K_factor self).
    change (_t_stress (initialSetup self)) with (_t_stress self).
    change (_poissons_ratio (initialSetup self)) with (_poissons_ratio self).
    change (_treat_as_2d (initialSetup self))
      with (treatAs2D (_crack_front_definition self)).
    change (_crack_front_definition (initialSetup self))
      with (_crack_front_definition self).
    change (_crack_front_point_index (initialSetup self))
      with (_crack_front_point_index self).
    now rewrite FK, FT, FP, FC. }
  split; [intros others s; apply getValue_run|].
  split; [exact E|].
  intros e1 e2 T2 _ TS H1 H2.
  rewrite (computeIntegral_returned (initialSetup self) coef) in H1, H2.
  injection H1 as H1. injection H2 as H2.
  rewrite E, T2, andb_false_r.
  unfold raw_sum, gatherSum. cbn [fold_left]. rewrite H1, H2. reflexivity.
Qed.

Lemma getValue_finalizes_witness :
  returned (evaluate [Demo.thermal3; Demo.thermal3] []
              Demo.object2d) = Ok (2 * 6).
Proof.
  destruct (getValue_finalizes
              (Demo.params (Demo.front true 0 0) None false GEOMETRY 1 true)
              (Demo.constructed (Demo.front true 0 0) None false
                 GEOMETRY 1 true) eq_refl) as (_ & _ & Case).
  apply (Case Demo.thermal3 Demo.thermal3); reflexivity.
Defined.

(* ================================================================== *)
(** ** The configuration error *)

Lemma raises_obind {A B} (m : outcome A) (k : A -> outcome B) :
  raises m = false -> (forall a, raises (k a) = false) ->
  raises (obind m k) = false.
Proof. destruct m; cbn; auto. Qed.

Lemma raises_bind {A B} (m : M A) (k : A -> M B) :
  (forall s, raises (m s) = false) ->
  (forall a s, raises (k a s) = false) ->
  forall s, raises (bind m k s) = false.
Proof.
  intros Hm Hk s. unfold bind. specialize (Hm s).
  destruct (m s) as [[[a s'] c]| |]; try easy.
  specialize (Hk a s'). destruct (k a s') as [[[b s''] c']| |]; easy.
Qed.

Lemma raises_for_each (l : list nat) (body : nat -> M unit) :
  (forall i s, raises (body i s) = false) ->
  forall s, raises (for_each l body s) = false.
Proof.
  intros Hb. induction l as [|i l IH]; intros s.
  - reflexivity.
  - cbn [for_each]. apply raises_bind; auto.
Qed.

Lemma raises_for_accum {A} (l : list nat) (body : A -> nat -> M A) :
  (forall a i s, raises (body a i s) = false) ->
  forall a s, raises (for_accum l a body s) = false.
Proof.
  intros Hb. induction l as [|i l IH]; intros a s.
  - reflexivity.
  - cbn [for_accum]. apply raises_bind; auto.
Qed.

Lemma raises_lift {A} (f : InteractionIntegral -> outcome A) :
  (forall s, raises (f s) = false) -> forall s, raises (lift f s) = false.
Proof. intros H s. unfold lift. specialize (H s). destruct (f s); easy. Qed.

Lemma raises_interpolation (phi : nat -> nat -> Real)
    (dphi : nat -> nat -> RealVectorValue) (q : list Real) (dims qp : nat)
    (l : list nat) (acc : outcome (Real * RealVectorValue)) :
  raises acc = false ->
  raises (fold_left (interpolation_step phi dphi q dims qp) l acc) = false.
Proof.
  revert acc. induction l as [|i l IH]; intros acc H.
  - exact H.
  - cbn [fold_left]. apply IH. unfold interpolation_step.
    apply raises_obind; [exact H|]. intros [s g].
    apply raises_obind; [|reflexivity].
    unfold vector_at. now destruct (nth_error q i).
Qed.

(** There is no [mooseError] on any path through [computeQpIntegral]. *)
Lemma computeQpIntegral_never_raises (self : InteractionIntegral)
    (asm : Assembly) :
  raises (computeQpIntegral self asm) = false.
Proof.
  unfold computeQpIntegral. apply raises_obind; [|reflexivity].
  unfold computeQpIntegral_locals.
  apply raises_obind; [now destruct (_phi_curr_elem self)|]. intros phi.
  apply raises_obind; [now destruct (_dphi_curr_elem self)|]. intros dphi.
  apply raises_obind;
    [unfold at_quadrature_point;
     now destruct (_qp self <? qrule_n_points asm)%nat|]. intros qp.
  apply raises_obind.
  - apply (raises_interpolation phi dphi (_q_curr_elem self)
             (dim (_current_elem asm)) qp). reflexivity.
  - intros [s g]. apply raises_obind; [|reflexivity].
    destruct (_has_temp self); [|reflexivity].
    apply raises_obind; [|reflexivity].
    now destruct (_current_instantaneous_thermal_expansion_coef self).
Qed.

(** Nor through [computeIntegral]. *)
Lemma computeIntegral_never_raises (asm : Assembly) (self : InteractionIntegral) :
  raises (computeIntegral asm self) = false.
Proof.
  revert self. unfold computeIntegral.
  do 3 (apply raises_bind; [reflexivity|]; intros _).
  apply raises_bind; [reflexivity|]. intros current.
  apply raises_bind.
  - apply raises_for_each. intros i.
    apply raises_bind; [|reflexivity].
    now destruct (_q_function_type current).
  - intros _.
    apply raises_bind;
      [|intros; apply raises_bind; [reflexivity|];
        intros; apply raises_bind; reflexivity].
    apply raises_for_accum. intros sum qp.
    apply raises_bind; [reflexivity|]. intros _.
    apply raises_bind; [|reflexivity].
    apply raises_lift. intros s. apply computeQpIntegral_never_raises.
Qed.

(** C6.  The constructor stops with the configuration error exactly when
    temperature is coupled and the thermal-expansion property is not
    available; no object exists then, so nothing is evaluated.  The check
    is made there and nowhere else: [computeQpIntegral] and
    [computeIntegral] never raise an error, and on every constructed
    object a whole pass returns. *)
Theorem thermal_property_checked_at_setup (parameters : InputParameters) :
  (isCoupled_temp parameters = true /\
   hasMaterialProperty_thermal_expansion_coef parameters = false <->
   construct parameters = MooseError thermal_error_message) /\
  (forall msg, construct parameters = MooseError msg ->
     msg = thermal_error_message) /\
  (construct parameters <> Fault) /\
  (forall self asm msg, computeQpIntegral self asm <> MooseError msg) /\
  (forall self asm msg, computeIntegral asm self <> MooseError msg) /\
  (forall self, construct parameters = Ok self ->
     forall elements others,
       exists v, returned (evaluate elements others (initialSetup self)) = Ok v).
Proof.
  assert (Cases :
    (isCoupled_temp parameters = true /\
     hasMaterialProperty_thermal_expansion_coef parameters = false /\
     construct parameters = MooseError thermal_error_message) \/
    ((isCoupled_temp parameters = false \/
      hasMaterialProperty_thermal_expansion_coef parameters = true) /\
     exists self, construct parameters = Ok self)).
  { unfold construct.
    destruct (isCoupled_temp parameters),
      (hasMaterialProperty_thermal_expansion_coef parameters); cbn;
      try (left; repeat split; reflexivity);
      right; (split; [auto|]);
      destruct (QFunctionType_eqb (q_function_type parameters) TOPOLOGY);
      eexists; reflexivity. }
  split; [|split; [|split; [|split; [|split]]]].
  - split.
    + intros [T P]. unfold construct. rewrite T, P. reflexivity.
    + intros E. destruct Cases as [(T & P & _) | (_ & self & C)]; [auto|].
      rewrite C in E. discriminate E.
  - intros msg E. destruct Cases as [(_ & _ & C) | (_ & self & C)];
      rewrite C in E; [now injection E | discriminate E].
  - intros E. destruct Cases as [(_ & _ & C) | (_ & self & C)];
      rewrite C in E; discriminate E.
  - intros self asm msg H.
    pose proof (computeQpIntegral_never_raises self asm) as N.
    now rewrite H in N.
  - intros self asm msg H.
    pose proof (computeIntegral_never_raises asm self) as N.
    now rewrite H in N.
  - intros self C elements others.
    rewrite (evaluate_run (initialSetup self)
               (construct_coef_ok parameters self C)).
    eexists. reflexivity.
Qed.

Lemma thermal_property_checked_at_setup_witness :
  construct Demo.params_without_coef = MooseError thermal_error_message.
Proof.
  destruct (thermal_property_checked_at_setup Demo.params_without_coef)
    as [[Raised _] _].
  apply Raised. split; reflexivity.
Defined.

(* ================================================================== *)
(** ** The ring index handed to the generators *)

Lemma uint_sub_0 (r : Z) : is_uint r -> uint_sub r 0 = r.
Proof.
  unfold is_uint, uint_sub, UINT_MOD. intros H.
  rewrite Z.sub_0_r. now apply Z.mod_small.
Qed.

Lemma uint_sub_1 (r : Z) : is_uint r -> (1 <= r)%Z -> uint_sub r 1 = (r - 1)%Z.
Proof.
  unfold is_uint, uint_sub, UINT_MOD. intros H H1.
  apply Z.mod_small. lia.
Qed.

Lemma uint_sub_1_wraps : uint_sub 0 1 = 4294967295%Z.
Proof. reflexivity. Qed.

(** C7.  [computeIntegral] invokes the generator once for every node of
    the element: [DomainIntegralQFunction] with the ring index
    [_ring_index - 1] (in [unsigned int] arithmetic, which is the integer
    [_ring_index - 1] as soon as [_ring_index >= 1]) for the geometric
    kind, [DomainIntegralTopologicalQFunction] with [_ring_index] itself
    for the topological kind; the value stored for the node is what the
    generator returned for that ring index. *)
Theorem ring_index_offset (self : InteractionIntegral) (asm : Assembly) :
  coef_ok self = true ->
  is_uint (_ring_index self) ->
  exists (v : Real) (self' : InteractionIntegral) (calls : list QCall),
    computeIntegral asm self = Ok (v, self', calls) /\
    calls =
      map (fun i =>
             match _q_function_type self with
             | GEOMETRY =>
                 CallDomainIntegralQFunction (_crack_front_point_index self)
                   (uint_sub (_ring_index self) 1)
                   (get_node (_current_elem asm) i)
             | TOPOLOGY =>
                 CallDomainIntegralTopologicalQFunction
                   (_crack_front_point_index self)
                   (_ring_index self)
                   (get_node (_current_elem asm) i)
             end)
          (seq 0 (n_nodes (_current_elem asm))) /\
    _q_curr_elem self' = map (perform (_crack_front_definition self)) calls /\
    ((1 <= _ring_index self)%Z ->
       uint_sub (_ring_index self) 1 = (_ring_index self - 1)%Z).
Proof.
  intros coef U.
  exists (element_integral self asm),
         (after_element self asm),
         (element_calls self asm).
  split; [exact (computeIntegral_run self asm coef)|].
  split; [|split; [reflexivity | exact (uint_sub_1 _ U)]].
  unfold element_calls. apply map_ext. intros i. unfold q_call.
  destruct (_q_function_type self); cbn [QFunctionType_eqb].
  - reflexivity.
  - now rewrite (uint_sub_0 _ U).
Qed.

Lemma ring_index_offset_witness :
  exists (v : Real) (self' : InteractionIntegral),
    computeIntegral (Demo.thermal 1 2) Demo.object2d =
    Ok (v, self',
        [ CallDomainIntegralQFunction 0 0 10%nat;
          CallDomainIntegralQFunction 0 0 11%nat;
          CallDomainIntegralQFunction 0 0 12%nat;
          CallDomainIntegralQFunction 0 0 13%nat ]).
Proof.
  assert (U : is_uint (_ring_index Demo.object2d))
    by (unfold is_uint, UINT_MOD; cbn; lia).
  destruct (ring_index_offset Demo.object2d (Demo.thermal 1 2) eq_refl U)
    as (v & self' & calls & Run & Calls & _).
  exists v, self'. rewrite Run, Calls. reflexivity.
Defined.

(** C10.  The geometric ring index is formed by [unsigned int]
    subtraction: a constructor argument [ring_index = 0] is accepted, and
    [computeIntegral] then returns after invoking
    [DomainIntegralQFunction] with the ring index 4294967295 at every node.
    The ring index handed over is the integer [ring_index - 1] exactly when
    [ring_index >= 1]. *)
Theorem geometry_ring_zero_wraps (parameters : InputParameters)
    (asm : Assembly) :
  q_function_type parameters = GEOMETRY ->
  ring_index parameters = 0%Z ->
  isCoupled_temp parameters = false \/
  hasMaterialProperty_thermal_expansion_coef parameters = true ->
  (exists self,
     construct parameters = Ok self /\
     exists (v : Real) (self' : InteractionIntegral),
       computeIntegral asm (initialSetup self) =
       Ok (v, self',
           map (fun i =>
                  CallDomainIntegralQFunction (_crack_front_point_index self)
                    4294967295 (get_node (_current_elem asm) i))
               (seq 0 (n_nodes (_current_elem asm))))) /\
  (forall r : Z, is_uint r -> uint_sub r 1 = (r - 1)%Z <-> (1 <= r)%Z).
Proof.
  intros G R0 Cfg. split.
  - assert (C : exists self, construct parameters = Ok self /\
                  _q_function_type self = GEOMETRY /\
                  _ring_index self = 0%Z).
    { unfold construct. rewrite G. cbn [QFunctionType_eqb].
      destruct Cfg as [-> | ->].
      - cbn. eexists. split; [reflexivity|]. cbn. auto.
      - rewrite andb_false_r. eexists. split; [reflexivity|]. cbn. auto. }
    destruct C as (self & C & T & R).
    exists self. split; [exact C|].
    exists (element_integral (initialSetup self) asm),
           (after_element (initialSetup self) asm).
    rewrite (computeIntegral_run (initialSetup self) asm
               (construct_coef_ok parameters self C)).
    do 2 f_equal. unfold element_calls. apply map_ext. intros i.
    unfold q_call.
    change (_q_function_type (initialSetup self)) with (_q_function_type self).
    change (_ring_index (initialSetup self)) with (_ring_index self).
    rewrite T, R. reflexivity.
  - intros r U. split.
    + unfold is_uint, uint_sub, UINT_MOD in *. intros E.
      destruct (Z.eq_dec r 0) as [->|]; [discriminate E | lia].
    + apply uint_sub_1. exact U.
Qed.

Lemma geometry_ring_zero_wraps_witness :
  exists (v : Real) (self' : InteractionIntegral),
    computeIntegral (Demo.thermal 1 2)
      (Demo.object (Demo.front true 0 0) None false GEOMETRY 0 true) =
    Ok (v, self',
        [ CallDomainIntegralQFunction 0 4294967295 10%nat;
          CallDomainIntegralQFunction 0 4294967295 11%nat;
          CallDomainIntegralQFunction 0 4294967295 12%nat;
          CallDomainIntegralQFunction 0 4294967295 13%nat ]).
Proof.
  destruct (geometry_ring_zero_wraps
              (Demo.params (Demo.front true 0 0) None false GEOMETRY 0 true)
              (Demo.thermal 1 2) eq_refl eq_refl (or_intror eq_refl))
    as [(self & C & v & self' & Run) _].
  rewrite construct_example in C. apply Ok_inj in C. subst self.
  exists v, self'. exact Run.
Defined.

(* ================================================================== *)
(** ** Which tensors are rotated *)

(** C2 as stated fails.  On a frame turned a quarter turn, with the
    auxiliary stress [diag(1, 3, 1)], the code returns 1: it reads the
    auxiliary stress as the material supplies it.  Had the auxiliary stress
    been rotated like the other tensors, the integrand would be 3. *)
Lemma aux_stress_is_not_rotated :
  computeQpIntegral (in_element Demo.object2d Demo.mechanical 0)
    Demo.mechanical = Ok 1 /\
  integrand_with_aux_stress
    (in_element Demo.object2d Demo.mechanical 0) Demo.mechanical
    (rotateToCrackFrontCoords (Demo.front true 0 0)
       (_aux_stress Demo.mechanical 0) 0) = 3 /\
  computeQpIntegral (in_element Demo.object2d Demo.mechanical 0)
    Demo.mechanical <>
  Ok (integrand_with_aux_stress
        (in_element Demo.object2d Demo.mechanical 0) Demo.mechanical
        (rotateToCrackFrontCoords (Demo.front true 0 0)
           (_aux_stress Demo.mechanical 0) 0)).
Proof.
  split; [vm_compute; reflexivity|]. split; [vm_compute; reflexivity|].
  intros H. vm_compute in H. apply Ok_inj in H. revert H.
  apply neq_by_spec. vm_compute. discriminate.
Qed.

(** C2 (amended).  Inside an element pass the q-gradient, the displacement
    gradient, the stress, the strain and the temperature gradient are each
    rotated by the crack-front definition, at the crack-front point index,
    before the four terms are formed; the auxiliary stress and the
    auxiliary displacement gradient enter the terms as the material
    supplies them. *)
Theorem real_fields_are_rotated (self : InteractionIntegral) (asm : Assembly) :
  ready self asm = true ->
  computeQpIntegral self asm =
    Ok (integrand_with_aux_stress self asm (_aux_stress asm (_qp self))) /\
  exists l : QpLocals,
    computeQpIntegral_locals self asm = Ok l /\
    grad_q_cf l =
      rotateVectorToCrackFrontCoords (_crack_front_definition self)
        (grad_q l) (_crack_front_point_index self) /\
    grad_disp_cf l =
      rotateToCrackFrontCoords (_crack_front_definition self)
        (grad_disp l) (_crack_front_point_index self) /\
    stress_cf l =
      rotateToCrackFrontCoords (_crack_front_definition self)
        (stress l) (_crack_front_point_index self) /\
    strain_cf l =
      rotateToCrackFrontCoords (_crack_front_definition self)
        (strain l) (_crack_front_point_index self) /\
    grad_temp_cf l =
      rotateVectorToCrackFrontCoords (_crack_front_definition self)
        (grad_at asm (_grad_temp self) (_qp self))
        (_crack_front_point_index self) /\
    stress l = Spec.dense (_stress asm (_qp self)) /\
    strain l = Spec.dense (_strain asm (_qp self)) /\
    grad_disp l =
      Spec.gradient_matrix
        (coupled_gradient_values asm disp_x (_qp self))
        (coupled_gradient_values asm disp_y (_qp self))
        (grad_at asm (_grad_disp_z self) (_qp self)).
Proof.
  intros R. split.
  - rewrite (computeQpIntegral_ready self asm R). reflexivity.
  - exists (expected_locals self asm).
    split; [exact (computeQpIntegral_locals_ready self asm R)|].
    repeat split.
Qed.

Lemma real_fields_are_rotated_witness :
  computeQpIntegral (in_element Demo.object2d Demo.mechanical 0)
    Demo.mechanical =
  Ok (integrand_with_aux_stress
        (in_element Demo.object2d Demo.mechanical 0) Demo.mechanical
        (Demo.diagonal 1 3 1)).
Proof.
  exact (proj1 (real_fields_are_rotated
                  (in_element Demo.object2d Demo.mechanical 0)
                  Demo.mechanical eq_refl)).
Defined.

(* ================================================================== *)
(** ** Segments of length zero *)

(** C8 as stated fails.  On a front that is not treated as 2D and whose
    two segments at the crack-front point have length zero,
    [computeQpIntegral] raises no error: it divides by zero and returns
    infinity. *)
Lemma zero_segments_give_infinity :
  treatAs2D (_crack_front_definition (Demo.object3d 0 0)) = false /\
  getCrackFrontForwardSegmentLength
    (_crack_front_definition (Demo.object3d 0 0)) 0 = 0 /\
  getCrackFrontBackwardSegmentLength
    (_crack_front_definition (Demo.object3d 0 0)) 0 = 0 /\
  computeQpIntegral
    (in_element (Demo.object3d 0 0) (Demo.thermal 1 2) 0)
    (Demo.thermal 1 2) = Ok infinity.
Proof. repeat split; vm_compute; reflexivity. Qed.

(** C8 (amended).  For a crack front not treated as 2D whose forward and
    backward segment lengths at the crack-front point are both zero, the
    divisor is zero and [computeQpIntegral] performs the division: it
    returns a value, and that value is an infinity or NaN. *)
Theorem zero_segments_divide_by_zero (self : InteractionIntegral)
    (asm : Assembly) :
  ready self asm = true ->
  treatAs2D (_crack_front_definition self) = false ->
  is_zero (getCrackFrontForwardSegmentLength (_crack_front_definition self)
             (_crack_front_point_index self)) = true ->
  is_zero (getCrackFrontBackwardSegmentLength (_crack_front_definition self)
             (_crack_front_point_index self)) = true ->
  exists l : QpLocals,
    computeQpIntegral_locals self asm = Ok l /\
    is_zero (q_avg_seg l) = true /\
    computeQpIntegral self asm = Ok (eq l / q_avg_seg l) /\
    is_inf_or_nan (eq l / q_avg_seg l) = true.
Proof.
  intros R T F B. exists (expected_locals self asm).
  split; [exact (computeQpIntegral_locals_ready self asm R)|].
  assert (Z : is_zero (q_avg_seg (expected_locals self asm)) = true).
  { cbn [expected_locals q_avg_seg]. rewrite T. unfold Spec.norm.
    apply div_zero_l; auto with realz. }
  split; [exact Z|].
  split; [exact (computeQpIntegral_ready self asm R)|].
  apply div_by_zero. exact Z.
Qed.

Lemma zero_segments_divide_by_zero_witness :
  exists l : QpLocals,
    computeQpIntegral
      (in_element (Demo.object3d 0 0) (Demo.thermal 1 2) 0)
      (Demo.thermal 1 2) = Ok (eq l / q_avg_seg l) /\
    is_inf_or_nan (eq l / q_avg_seg l) = true.
Proof.
  destruct (zero_segments_divide_by_zero
              (in_element (Demo.object3d 0 0) (Demo.thermal 1 2) 0)
              (Demo.thermal 1 2) eq_refl eq_refl eq_refl eq_refl)
    as (l & _ & _ & Hv & Hi).
  exists l. split; [exact Hv | exact Hi].
Defined.

(* ================================================================== *)
(** ** Vanishing fields *)

Lemma cm_forall_get (P : Real -> bool) (m : ColumnMajorMatrix) (i j : nat) :
  cm_forall P m = true -> (i < 3)%nat -> (j < 3)%nat ->
  P (cm_get m i j) = true.
Proof.
  intros H Hi Hj. destruct m. unfold cm_forall in H. cbn in H.
  split_forall H.
  destruct i as [|[|[|i]]]; [| | |lia];
    destruct j as [|[|[|j]]]; try lia; cbn; assumption.
Qed.

Lemma dense_zero (t : SymmTensor) :
  symm_forall is_zero t = true -> cm_forall is_zero (Spec.dense t) = true.
Proof.
  intros H. destruct t. unfold symm_forall in H. cbn in H. split_forall H.
  unfold cm_forall, Spec.dense. cbn.
  repeat (apply andb_true_intro; split); assumption.
Qed.

Lemma row0_of_zero (m : ColumnMajorMatrix) :
  cm_forall is_zero m = true -> cm_forall is_zero (Spec.row0_of m) = true.
Proof.
  intros H. destruct m. unfold cm_forall in H. cbn in H. split_forall H.
  unfold cm_forall, Spec.row0_of. cbn.
  repeat (apply andb_true_intro; split); auto with realz.
Qed.

Lemma row0_tensor_finite (g : RealVectorValue) :
  vec_forall is_finite g = true ->
  cm_forall is_finite (Spec.row0_tensor g) = true.
Proof.
  intros H. destruct g. unfold vec_forall in H. cbn in H. split_forall H.
  unfold cm_forall, Spec.row0_tensor. cbn.
  repeat (apply andb_true_intro; split); auto with realz.
Qed.

Lemma cm_mul_zero_r (a b : ColumnMajorMatrix) :
  cm_forall is_finite a = true -> cm_forall is_zero b = true ->
  cm_forall is_zero (cm_mul a b) = true.
Proof.
  intros Ha Hb. destruct a, b. unfold cm_forall in Ha, Hb. cbn in Ha, Hb.
  split_forall Ha. split_forall Hb.
  unfold cm_forall.
  cbv [cm_mul fold_left seq cm_set cm_get cm_raw cm_raw_set cm_zero
       Nat.mul Nat.add cm0 cm1 cm2 cm3 cm4 cm5 cm6 cm7 cm8].
  repeat (apply andb_true_intro; split); auto 8 with realz.
Qed.

Lemma cm_mul_zero_l (a b : ColumnMajorMatrix) :
  cm_forall is_zero a = true -> cm_forall is_finite b = true ->
  cm_forall is_zero (cm_mul a b) = true.
Proof.
  intros Ha Hb. destruct a, b. unfold cm_forall in Ha, Hb. cbn in Ha, Hb.
  split_forall Ha. split_forall Hb.
  unfold cm_forall.
  cbv [cm_mul fold_left seq cm_set cm_get cm_raw cm_raw_set cm_zero
       Nat.mul Nat.add cm0 cm1 cm2 cm3 cm4 cm5 cm6 cm7 cm8].
  repeat (apply andb_true_intro; split); auto 8 with realz.
Qed.

Lemma doubleContraction_zero (a b : ColumnMajorMatrix) :
  cm_forall is_zero a = true -> cm_forall is_zero b = true ->
  is_zero (cm_doubleContraction a b) = true.
Proof.
  intros Ha Hb. destruct a, b. unfold cm_forall in Ha, Hb. cbn in Ha, Hb.
  split_forall Ha. split_forall Hb.
  cbv [cm_doubleContraction fold_left seq cm_get cm_raw Nat.mul Nat.add
       cm0 cm1 cm2 cm3 cm4 cm5 cm6 cm7 cm8].
  auto 20 with realz.
Qed.

Lemma transpose_finite (m : ColumnMajorMatrix) :
  cm_forall is_finite m = true -> cm_forall is_finite (cm_transpose m) = true.
Proof.
  intros H. destruct m. unfold cm_forall in H. cbn in H. split_forall H.
  unfold cm_forall, cm_transpose. cbn.
  repeat (apply andb_true_intro; split); assumption.
Qed.

(** A frame given by a finite rotation matrix keeps the zero tensor. *)
Lemma frame_of_rotation_keeps_zero (R : ColumnMajorMatrix) (is2d : bool)
    (fwd bwd strain : Real) (qgeom qtopo : Z -> Z -> Node -> Real)
    (T : ColumnMajorMatrix) (point : Z) :
  cm_forall is_finite R = true ->
  cm_forall is_zero T = true ->
  cm_forall is_zero
    (rotateToCrackFrontCoords
       (frame_of_rotation R is2d fwd bwd strain qgeom qtopo) T point) = true.
Proof.
  intros HR HT.
  change (cm_forall is_zero (cm_mul (cm_mul R T) (cm_transpose R)) = true).
  apply cm_mul_zero_l; [apply cm_mul_zero_r; assumption|].
  apply transpose_finite. exact HR.
Qed.

Lemma sum_of_zeros {A} (f : A -> Real) (l : list A) (start : Real) :
  is_zero start = true ->
  (forall a, In a l -> is_zero (f a) = true) ->
  is_zero (fold_left (fun acc a => acc + f a) l start) = true.
Proof.
  revert start. induction l as [|a l IH]; intros start Hs Hl.
  - exact Hs.
  - cbn [fold_left]. apply IH.
    + apply add_zero; [exact Hs | apply Hl; now left].
    + intros b Hb. apply Hl. now right.
Qed.

Lemma term1_zero (aux_du dq stress : ColumnMajorMatrix) :
  cm_forall is_zero aux_du = true ->
  cm_forall is_finite dq = true ->
  cm_forall is_zero stress = true ->
  is_zero (Spec.term1 aux_du dq stress) = true.
Proof.
  intros Hdu Hdq Hs. unfold Spec.term1.
  apply doubleContraction_zero; [exact Hdu|].
  apply cm_mul_zero_r; assumption.
Qed.

Lemma term2_zero (grad_disp dq aux_stress : ColumnMajorMatrix) :
  cm_forall is_finite grad_disp = true ->
  cm_forall is_finite dq = true ->
  cm_forall is_zero aux_stress = true ->
  is_zero (Spec.term2 grad_disp dq aux_stress) = true.
Proof.
  intros Hgd Hdq Ha. unfold Spec.term2.
  pose proof (cm_mul_zero_r dq aux_stress Hdq Ha) as Htmp2.
  repeat apply add_zero; apply mul_zero_r; apply cm_forall_get; auto; lia.
Qed.

Lemma term3_zero (dq aux_stress strain : ColumnMajorMatrix) :
  cm_forall is_finite dq = true ->
  cm_forall is_zero aux_stress = true ->
  cm_forall is_zero strain = true ->
  is_zero (Spec.term3 dq aux_stress strain) = true.
Proof.
  intros Hdq Ha Hs. unfold Spec.term3. apply mul_zero_r.
  - apply cm_forall_get; [exact Hdq | lia | lia].
  - apply doubleContraction_zero; assumption.
Qed.

Lemma term4_zero (has_temp : bool) (q : Real) (aux_stress : ColumnMajorMatrix)
    (alpha : Real) (grad_temp : RealVectorValue) :
  is_finite q = true ->
  cm_forall is_zero aux_stress = true ->
  is_finite alpha = true ->
  is_finite (vec_get grad_temp 0) = true ->
  is_zero (Spec.term4 has_temp q aux_stress alpha grad_temp) = true.
Proof.
  intros Hq Ha Hal Hg. unfold Spec.term4, Spec.thermal_term, Spec.trace.
  destruct has_temp; [|reflexivity].
  apply mul_zero_l; [|exact Hg].
  apply mul_zero_l; [|exact Hal].
  apply mul_zero_r; [exact Hq|].
  repeat apply add_zero; apply cm_forall_get; auto; lia.
Qed.

Lemma eq_terms_zero (sym : bool) (t1 t2 t3 t4 : Real) :
  is_zero t1 = true -> is_zero t2 = true ->
  is_zero t3 = true -> is_zero t4 = true ->
  is_zero (Spec.eq_terms sym t1 t2 t3 t4) = true.
Proof.
  intros H1 H2 H3 H4. unfold Spec.eq_terms.
  destruct sym; auto 10 with realz.
Qed.

Section ZeroFields.

Variables (self : InteractionIntegral) (asm : Assembly).
Hypothesis fields : zero_fields asm.
Hypothesis rotation : rotation_keeps_zero self.
Hypothesis inputs : finite_inputs self asm.

(** The integrand vanishes at every quadrature point of the element. *)
Lemma integrand_at_zero (qp : nat) :
  (qp < qrule_n_points asm)%nat ->
  is_zero (integrand_at self asm qp) = true.
Proof.
  intros Hqp.
  destruct (fields qp) as (Hstress & Hstrain & Haux & Hdu).
  destruct (inputs qp Hqp) as (_ & Hq & Hgq & Hgd & Ha & Hgt & Hdiv).
  unfold integrand_at.
  apply div_zero_l; [|exact Hdiv].
  cbn [expected_locals eq].
  apply eq_terms_zero.
  - apply term1_zero.
    + apply row0_of_zero, Hdu.
    + apply row0_tensor_finite. exact Hgq.
    + apply rotation, dense_zero, Hstress.
  - apply term2_zero.
    + exact Hgd.
    + apply row0_tensor_finite. exact Hgq.
    + exact Haux.
  - apply term3_zero.
    + apply row0_tensor_finite. exact Hgq.
    + exact Haux.
    + apply rotation, dense_zero, Hstrain.
  - apply term4_zero; assumption.
Qed.

(** So does the quadrature sum. *)
Lemma element_integral_zero : is_zero (element_integral self asm) = true.
Proof.
  unfold element_integral.
  apply (sum_of_zeros
           (fun qp => _JxW asm qp * _coord asm qp * integrand_at self asm qp)).
  - reflexivity.
  - intros qp Hin. apply in_seq in Hin.
    assert (Hqp : (qp < qrule_n_points asm)%nat) by lia.
    apply mul_zero_r; [|exact (integrand_at_zero qp Hqp)].
    exact (proj1 (inputs qp Hqp)).
Qed.

End ZeroFields.

(** C9 as stated fails.  With all four fields zero, a T-stress request
    on a front that is not 2D still adds the Poisson term: the pass over the unloaded element
    returns [2 * (0 + 0.5 * 1) = 1], not zero. *)
Lemma zero_fields_nonzero_value :
  zero_fields Demo.unloaded /\
  returned (evaluate [Demo.unloaded] [] (Demo.object3d 1 1)) = Ok 1 /\
  is_zero 1 = false.
Proof.
  split; [|split; vm_compute; reflexivity].
  intros qp. repeat split; reflexivity.
Qed.

(** C9 (amended).  If the stress, the strain, the auxiliary stress and the
    auxiliary displacement gradient are zero at every quadrature point, and
    the remaining inputs are finite with a usable divisor, then every
    element contributes exactly zero and so does the reduced sum;
    [getValue] returns [_K_factor] times that zero, to which the T-stress
    term [_poissons_ratio * tangential strain] is still added when the
    T-stress is requested on a front that is not 2D.  Without that term,
    and for a finite [_K_factor], the value is zero. *)
Theorem zero_fields_zero_integral (self : InteractionIntegral)
    (elements : list Assembly) (others : list Real) :
  coef_ok self = true ->
  rotation_keeps_zero self ->
  (forall asm, In asm elements -> zero_fields asm /\ finite_inputs self asm) ->
  (forall v, In v others -> is_zero v = true) ->
  (forall asm, In asm elements ->
     returned (computeIntegral asm self) = Ok (element_integral self asm) /\
     is_zero (element_integral self asm) = true) /\
  (exists total,
     is_zero total = true /\
     returned (evaluate elements others self) =
     Ok (_K_factor self *
         (if _t_stress self && negb (_treat_as_2d self)
          then total +
               _poissons_ratio self *
               getCrackFrontTangentialStrain (_crack_front_definition self)
                 (_crack_front_point_index self)
          else total))) /\
  (_t_stress self && negb (_treat_as_2d self) = false ->
   is_finite (_K_factor self) = true ->
   exists v,
     returned (evaluate elements others self) = Ok v /\ is_zero v = true).
Proof.
  intros coef Rot Hel Hoth.
  assert (Zel : forall asm, In asm elements ->
                  is_zero (element_integral self asm) = true).
  { intros asm Hin. destruct (Hel asm Hin) as [F I].
    exact (element_integral_zero self asm F Rot I). }
  assert (Ztot : is_zero (gatherSum others (raw_sum self elements 0)) = true).
  { unfold gatherSum. apply (sum_of_zeros (fun v => v)); [|exact Hoth].
    unfold raw_sum.
    apply (sum_of_zeros (fun asm => element_integral self asm));
      [reflexivity | exact Zel]. }
  split; [|split].
  - intros asm Hin. split; [|exact (Zel asm Hin)].
    exact (computeIntegral_returned self coef asm).
  - exists (gatherSum others (raw_sum self elements 0)).
    split; [exact Ztot|]. exact (evaluate_run self coef elements others).
  - intros NoT HK. rewrite (evaluate_run self coef elements others).
    unfold finalized. rewrite NoT. eexists. split; [reflexivity|].
    apply mul_zero_r; assumption.
Qed.

Lemma zero_fields_zero_integral_witness :
  exists v,
    returned (evaluate [Demo.unloaded] [] Demo.object2d) = Ok v /\
    is_zero v = true.
Proof.
  assert (Rot : rotation_keeps_zero Demo.object2d).
  { intros T HT. apply frame_of_rotation_keeps_zero; [reflexivity | exact HT]. }
  assert (Hel : forall asm, In asm [Demo.unloaded] ->
                  zero_fields asm /\ finite_inputs Demo.object2d asm).
  { intros asm [<- | []]. split.
    - intros qp. repeat split; reflexivity.
    - intros qp Hqp. repeat split; reflexivity. }
  assert (Hoth : forall v : Real, In v [] -> is_zero v = true)
    by (intros v []).
  destruct (zero_fields_zero_integral Demo.object2d [Demo.unloaded] []
              eq_refl Rot Hel Hoth) as (_ & _ & Value).
  exact (Value eq_refl eq_refl).
Defined.

(* ================================================================== *)
(** * Part III: further properties of the code *)

(* ================================================================== *)
(** ** When the member functions are defined *)

Lemma obind_Fault {A B} (m : outcome A) (k : A -> outcome B) :
  m = Fault -> obind m k = Fault.
Proof. intros ->. reflexivity. Qed.

Lemma interpolation_stays_fault (phi : nat -> nat -> Real)
    (dphi : nat -> nat -> RealVectorValue) (q : list Real) (dims qp : nat)
    (l : list nat) :
  fold_left (interpolation_step phi dphi q dims qp) l Fault = Fault.
Proof. induction l as [|i l IH]; [reflexivity | exact IH]. Qed.

(** With fewer stored q values than nodes, the interpolation loop reads
    past the end of [_q_curr_elem]. *)
Lemma interpolation_out_of_range (phi : nat -> nat -> Real)
    (dphi : nat -> nat -> RealVectorValue) (q : list Real) (dims qp n : nat)
    (s : Real) (g : RealVectorValue) :
  (List.length q < n)%nat ->
  fold_left (interpolation_step phi dphi q dims qp) (seq 0 n) (Ok (s, g))
  = Fault.
Proof.
  intros H.
  replace n with (List.length q + S (n - S (List.length q)))%nat by lia.
  rewrite seq_app, fold_left_app.
  rewrite (interpolation_loop phi dphi q dims qp _ s g
             (seq_below _ _ (Nat.le_refl _))).
  cbn [seq Nat.add fold_left]. unfold interpolation_step at 2. cbn [obind].
  unfold vector_at.
  destruct (nth_error q (List.length q)) eqn:E.
  - assert (N : nth_error q (List.length q) = None)
      by (apply nth_error_None; lia).
    congruence.
  - cbn [obind]. apply interpolation_stays_fault.
Qed.

(** Outside the quadrature loop of an element pass [computeQpIntegral]
    does not reach its [return]. *)
Lemma computeQpIntegral_locals_not_ready (self : InteractionIntegral)
    (asm : Assembly) :
  ready self asm = false -> computeQpIntegral_locals self asm = Fault.
Proof.
  intros R. unfold computeQpIntegral_locals. unfold ready in R.
  destruct (_phi_curr_elem self) as [phi|]; [|reflexivity].
  destruct (_dphi_curr_elem self) as [dphi|]; [|reflexivity].
  cbn [isParamValid andb deref obind] in R |- *.
  unfold at_quadrature_point.
  destruct (_qp self <? qrule_n_points asm)%nat; [|reflexivity].
  cbn [andb obind] in R |- *.
  destruct (Nat.leb_spec (n_nodes (_current_elem asm))
              (List.length (_q_curr_elem self))) as [Hn|Hn].
  - cbn [andb] in R.
    erewrite obind_Ok
      by (apply (interpolation_loop phi dphi), seq_below; exact Hn).
    destruct (_has_temp self); [|discriminate R].
    destruct (_current_instantaneous_thermal_expansion_coef self);
      [reflexivity | discriminate R].
  - erewrite obind_Fault; [reflexivity|].
    apply (interpolation_out_of_range phi dphi (_q_curr_elem self)
             (dim (_current_elem asm)) (_qp self)). exact Hn.
Qed.

Lemma computeQpIntegral_not_ready (self : InteractionIntegral)
    (asm : Assembly) :
  ready self asm = false -> computeQpIntegral self asm = Fault.
Proof.
  intros R. unfold computeQpIntegral.
  rewrite (computeQpIntegral_locals_not_ready self asm R). reflexivity.
Qed.

(** [computeIntegral] up to its quadrature loop. *)
Lemma computeIntegral_shape (self : InteractionIntegral) (asm : Assembly) :
  computeIntegral asm self =
  match
    for_accum (seq 0 (qrule_n_points asm)) 0 (fun sum qp =>
      modify (set_qp qp) ;;;
      integrand <<- lift (fun s => computeQpIntegral s asm) ;;
      ret (sum + _JxW asm qp * _coord asm qp * integrand))
      (in_element self asm (_qp self))
  with
  | Ok (sum, s', calls') =>
      Ok (sum, release_fe (set_qp (qrule_n_points asm) s'),
          element_calls self asm ++ calls')
  | MooseError msg => MooseError msg
  | Fault => Fault
  end.
Proof.
  unfold computeIntegral.
  rewrite !bind_modify, bind_this.
  change (set_q_curr_elem [] _)
    with (with_members self (_treat_as_2d self) [] (Some (fe_get_phi asm))
            (Some (fe_get_dphi asm)) (_qp self) (_integral_value self)).
  assert (E : forall s, _q_function_type
                (with_members self (_treat_as_2d self) []
                   (Some (fe_get_phi asm)) (Some (fe_get_dphi asm))
                   (_qp self) s) = _q_function_type self) by reflexivity.
  destruct (_q_function_type self) eqn:T.
  - erewrite bind_Ok;
      [| rewrite E;
         apply (node_loop self
                  (fun i => CallDomainIntegralQFunction
                     (_crack_front_point_index self)
                     (uint_sub (_ring_index self) 1)
                     (get_node (_current_elem asm) i)))].
    replace (map _ (seq 0 (n_nodes (_current_elem asm))))
      with (element_calls self asm)
      by (apply map_ext; intros i; unfold q_call; now rewrite T).
    cbn [app].
    change (with_members self (_treat_as_2d self)
              (map (perform (_crack_front_definition self))
                 (element_calls self asm))
              (Some (fe_get_phi asm)) (Some (fe_get_dphi asm)) (_qp self)
              (_integral_value self))
      with (in_element self asm (_qp self)).
    unfold bind at 1.
    destruct (for_accum _ _ _ _) as [[[sum s'] c']| |]; try reflexivity.
    rewrite !bind_modify. unfold ret. rewrite !app_nil_r. reflexivity.
  - erewrite bind_Ok;
      [| rewrite E;
         apply (node_loop self
                  (fun i => CallDomainIntegralTopologicalQFunction
                     (_crack_front_point_index self)
                     (uint_sub (_ring_index self) 0)
                     (get_node (_current_elem asm) i)))].
    replace (map _ (seq 0 (n_nodes (_current_elem asm))))
      with (element_calls self asm)
      by (apply map_ext; intros i; unfold q_call; now rewrite T).
    cbn [app].
    change (with_members self (_treat_as_2d self)
              (map (perform (_crack_front_definition self))
                 (element_calls self asm))
              (Some (fe_get_phi asm)) (Some (fe_get_dphi asm)) (_qp self)
              (_integral_value self))
      with (in_element self asm (_qp self)).
    unfold bind at 1.
    destruct (for_accum _ _ _ _) as [[[sum s'] c']| |]; try reflexivity.
    rewrite !bind_modify. unfold ret. rewrite !app_nil_r. reflexivity.
Qed.

Lemma in_element_not_ready (self : InteractionIntegral) (asm : Assembly)
    (qp : nat) :
  coef_ok self = false -> ready (in_element self asm qp) asm = false.
Proof.
  intros H. unfold ready.
  change (negb (_has_temp (in_element self asm qp)) ||
          match _current_instantaneous_thermal_expansion_coef
                  (in_element self asm qp) with
          | RealProperty => true
          | NULL => false
          end) with (coef_ok self).
  rewrite H. apply andb_false_r.
Qed.

(** The two ways through [computeIntegral] in the embedding. *)
Lemma computeIntegral_cases (self : InteractionIntegral) (asm : Assembly) :
  computeIntegral asm self =
  if coef_ok self || (qrule_n_points asm =? 0)%nat
  then Ok (element_integral self asm,
           after_element self asm,
           element_calls self asm)
  else Fault.
Proof.
  destruct (coef_ok self) eqn:C.
  - exact (computeIntegral_run self asm C).
  - rewrite computeIntegral_shape. cbn [orb].
    destruct (qrule_n_points asm) as [|n] eqn:N.
    + cbn. unfold element_integral, after_element.
      rewrite N, app_nil_r. reflexivity.
    + cbn [Nat.eqb]. rewrite <- cons_seq. cbn [for_accum].
      unfold bind at 1. rewrite bind_modify.
      change (set_qp 0 (in_element self asm (_qp self)))
        with (in_element self asm 0).
      unfold bind, lift.
      rewrite (computeQpIntegral_not_ready _ _
                 (in_element_not_ready self asm 0 C)).
      reflexivity.
Qed.

Lemma construct_pointers_unset (parameters : InputParameters)
    (self : InteractionIntegral) :
  construct parameters = Ok self ->
  _phi_curr_elem self = None /\ _dphi_curr_elem self = None.
Proof.
  unfold construct.
  destruct (isCoupled_temp parameters && _); [discriminate|].
  destruct (QFunctionType_eqb (q_function_type parameters) TOPOLOGY);
    intros [= <-]; split; reflexivity.
Qed.

Lemma not_ready_without_phi (self : InteractionIntegral) (asm : Assembly) :
  _phi_curr_elem self = None -> ready self asm = false.
Proof. intros H. unfold ready. rewrite H. reflexivity. Qed.

Lemma not_ready_without_dphi (self : InteractionIntegral) (asm : Assembly) :
  _dphi_curr_elem self = None -> ready self asm = false.
Proof.
  intros H. unfold ready. rewrite H. cbn [isParamValid].
  rewrite andb_false_r. reflexivity.
Qed.

(** X1.  [computeQpIntegral] may only be called from the quadrature loop
    of [computeIntegral].  It has undefined behaviour when one of the two
    shape-function pointers has no live target, when [_qp] is not below
    the number of quadrature points, when [_q_curr_elem] holds fewer values
    than the element has nodes, and when temperature is coupled and the
    thermal-expansion pointer is null.  In particular it is undefined on a
    freshly constructed object, before and after [initialSetup], and on
    the object [computeIntegral] leaves behind: the [FEBase] object the
    two pointers were set to is destroyed when [computeIntegral]
    returns. *)
Theorem computeQpIntegral_outside_quadrature_loop
    (self : InteractionIntegral) (asm : Assembly) :
  (_phi_curr_elem self = None -> computeQpIntegral self asm = Fault) /\
  (_dphi_curr_elem self = None -> computeQpIntegral self asm = Fault) /\
  ((qrule_n_points asm <= _qp self)%nat ->
     computeQpIntegral self asm = Fault) /\
  ((List.length (_q_curr_elem self) < n_nodes (_current_elem asm))%nat ->
     computeQpIntegral self asm = Fault) /\
  (_has_temp self = true ->
   _current_instantaneous_thermal_expansion_coef self = NULL ->
     computeQpIntegral self asm = Fault) /\
  (forall parameters, construct parameters = Ok self ->
     computeQpIntegral self asm = Fault /\
     computeQpIntegral (initialSetup self) asm = Fault) /\
  (forall element value self' calls,
     computeIntegral element self = Ok (value, self', calls) ->
     computeQpIntegral self' asm = Fault).
Proof.
  split; [|split; [|split; [|split; [|split; [|split]]]]].
  - intros H. apply computeQpIntegral_not_ready, not_ready_without_phi, H.
  - intros H. apply computeQpIntegral_not_ready, not_ready_without_dphi, H.
  - intros H. apply computeQpIntegral_not_ready. unfold ready.
    apply Nat.ltb_ge in H. rewrite H, andb_false_r. reflexivity.
  - intros H. apply computeQpIntegral_not_ready. unfold ready.
    apply Nat.leb_gt in H. rewrite H, andb_false_r. reflexivity.
  - intros T N. apply computeQpIntegral_not_ready. unfold ready.
    rewrite T, N. apply andb_false_r.
  - intros parameters C.
    destruct (construct_pointers_unset parameters self C) as [P _].
    split; apply computeQpIntegral_not_ready, not_ready_without_phi;
      [exact P | exact P].
  - intros element value self' calls Run.
    rewrite computeIntegral_cases in Run.
    destruct (coef_ok self || (qrule_n_points element =? 0)%nat);
      [|discriminate Run].
    apply Ok_inj in Run. injection Run as _ <- _.
    apply computeQpIntegral_not_ready, not_ready_without_phi. reflexivity.
Qed.

Lemma computeQpIntegral_outside_quadrature_loop_witness :
  computeQpIntegral Demo.object2d (Demo.thermal 1 2) = Fault /\
  computeQpIntegral
    (set_qp 1 (in_element Demo.object2d (Demo.thermal 1 2) 0))
    (Demo.thermal 1 2) = Fault /\
  exists (self' : InteractionIntegral) (calls : list QCall),
    computeIntegral (Demo.thermal 1 2) Demo.object2d = Ok (10, self', calls) /\
    computeQpIntegral self' (Demo.thermal 1 2) = Fault.
Proof.
  split; [|split].
  - destruct (computeQpIntegral_outside_quadrature_loop
                Demo.object2d (Demo.thermal 1 2)) as (Unset & _).
    apply Unset. reflexivity.
  - destruct (computeQpIntegral_outside_quadrature_loop
                (set_qp 1 (in_element Demo.object2d (Demo.thermal 1 2) 0))
                (Demo.thermal 1 2)) as (_ & _ & Beyond & _).
    apply Beyond. apply Nat.le_refl.
  - destruct (computeQpIntegral_outside_quadrature_loop
                Demo.object2d (Demo.thermal 1 2))
      as (_ & _ & _ & _ & _ & _ & After).
    assert (Run : computeIntegral (Demo.thermal 1 2) Demo.object2d =
                  Ok (10, after_element Demo.object2d (Demo.thermal 1 2),
                      element_calls Demo.object2d (Demo.thermal 1 2)))
      by (rewrite computeIntegral_cases; reflexivity).
    exists (after_element Demo.object2d (Demo.thermal 1 2)),
           (element_calls Demo.object2d (Demo.thermal 1 2)).
    split; [exact Run | exact (After _ _ _ _ Run)].
Defined.

(** X2.  What the constructor's check protects.  On an object with
    temperature coupled and a null thermal-expansion pointer
    [computeIntegral] dereferences the null pointer at the first quadrature
    point: undefined behaviour on every element that has one.  An element
    without quadrature points contributes 0.0 on every object, after one
    generator call per node.  Whenever [computeIntegral] returns, it has
    made exactly one generator call per node, and it leaves the two
    shape-function pointers without a live target and [_qp] at the number
    of quadrature points. *)
Theorem computeIntegral_without_coefficient (self : InteractionIntegral)
    (asm : Assembly) :
  (_has_temp self = true ->
   _current_instantaneous_thermal_expansion_coef self = NULL ->
   (0 < qrule_n_points asm)%nat ->
     computeIntegral asm self = Fault) /\
  (qrule_n_points asm = 0%nat ->
     computeIntegral asm self =
     Ok (0, after_element self asm, element_calls self asm)) /\
  (forall value self' calls,
     computeIntegral asm self = Ok (value, self', calls) ->
     self' = after_element self asm /\
     calls = element_calls self asm /\
     List.length calls = n_nodes (_current_elem asm) /\
     _phi_curr_elem self' = None /\
     _dphi_curr_elem self' = None /\
     _qp self' = qrule_n_points asm).
Proof.
  split; [|split].
  - intros T N Q. rewrite computeIntegral_cases.
    unfold coef_ok. rewrite T, N.
    destruct (qrule_n_points asm); [lia | reflexivity].
  - intros Q. rewrite computeIntegral_cases.
    unfold element_integral. rewrite Q, orb_true_r. reflexivity.
  - intros value self' calls Run.
    rewrite computeIntegral_cases in Run.
    destruct (coef_ok self || (qrule_n_points asm =? 0)%nat);
      [|discriminate Run].
    apply Ok_inj in Run. injection Run as _ <- <-.
    repeat split. unfold element_calls.
    now rewrite length_map, length_seq.
Qed.

Lemma computeIntegral_without_coefficient_witness :
  computeIntegral Loaded.element Loaded.without_coefficient = Fault.
Proof.
  destruct (computeIntegral_without_coefficient
              Loaded.without_coefficient Loaded.element) as (Null & _).
  apply Null; [reflexivity | reflexivity | apply Nat.lt_0_1].
Defined.

(** X3.  Nothing of an earlier element survives into [computeIntegral]:
    whatever the transient members ([_q_curr_elem], the shape-function
    pointers, [_qp]) and the accumulator hold on entry, the call returns
    the same value and makes the same generator calls; on return
    [_q_curr_elem] holds exactly one value per node of this element, [_qp]
    is the number of quadrature points, and [_treat_as_2d] and
    [_integral_value] are as they were. *)
Theorem computeIntegral_forgets_transients (self : InteractionIntegral)
    (asm : Assembly) (t2d : bool) (q : list Real)
    (phi : option (nat -> nat -> Real))
    (dphi : option (nat -> nat -> RealVectorValue)) (qp : nat) (v : Real) :
  returned (computeIntegral asm (with_members self t2d q phi dphi qp v)) =
    returned (computeIntegral asm self) /\
  calls_made (computeIntegral asm (with_members self t2d q phi dphi qp v)) =
    calls_made (computeIntegral asm self) /\
  forall value self' calls,
    computeIntegral asm (with_members self t2d q phi dphi qp v) =
      Ok (value, self', calls) ->
    _q_curr_elem self' = map (perform (_crack_front_definition self)) calls /\
    List.length (_q_curr_elem self') = n_nodes (_current_elem asm) /\
    _qp self' = qrule_n_points asm /\
    _treat_as_2d self' = t2d /\
    _integral_value self' = v.
Proof.
  rewrite !computeIntegral_cases.
  change (coef_ok (with_members self t2d q phi dphi qp v)) with (coef_ok self).
  destruct (coef_ok self || (qrule_n_points asm =? 0)%nat).
  - split; [reflexivity|]. split; [reflexivity|].
    intros value self' calls [= <- <- <-].
    repeat split. cbn. unfold element_calls.
    now rewrite !length_map, length_seq.
  - split; [reflexivity|]. split; [reflexivity|]. discriminate.
Qed.

(* ================================================================== *)
(** ** The life cycle of the object *)

(** The total [getValue] leaves in the accumulator. *)
Lemma getValue_state (others : list Real) (self : InteractionIntegral) :
  getValue others self =
  Ok (finalized self (gatherSum others (_integral_value self)),
      set_integral_value
        (if _t_stress self && negb (_treat_as_2d self)
         then gatherSum others (_integral_value self) +
              _poissons_ratio self *
              getCrackFrontTangentialStrain (_crack_front_definition self)
                (_crack_front_point_index self)
         else gatherSum others (_integral_value self)) self,
      []).
Proof.
  unfold getValue, finalized. rewrite bind_modify, bind_this.
  change (_t_stress (set_integral_value _ self)) with (_t_stress self).
  change (_treat_as_2d (set_integral_value _ self)) with (_treat_as_2d self).
  destruct (_t_stress self && negb (_treat_as_2d self)).
  - rewrite bind_modify, bind_this. reflexivity.
  - rewrite bind_ret, bind_this. reflexivity.
Qed.

(** X4.  [getValue] keeps what it computed in [_integral_value]: a second
    call that is not preceded by a new pass starts from the total of the
    first one, so with the T-stress requested on a front that is not 2D
    the term [_poissons_ratio * tangential strain] is added a second
    time. *)
Theorem getValue_twice (self : InteractionIntegral) (others1 others2 : list Real) :
  exists (v1 : Real) (self1 : InteractionIntegral),
    getValue others1 self = Ok (v1, self1, []) /\
    returned (getValue others2 self1) =
      Ok (finalized self (gatherSum others2 (_integral_value self1))) /\
    (_t_stress self && negb (_treat_as_2d self) = true ->
     _integral_value self1 =
       gatherSum others1 (_integral_value self) +
       _poissons_ratio self *
       getCrackFrontTangentialStrain (_crack_front_definition self)
         (_crack_front_point_index self) /\
     returned (getValue [] self1) =
       Ok (_K_factor self *
           (gatherSum others1 (_integral_value self) +
            _poissons_ratio self *
            getCrackFrontTangentialStrain (_crack_front_definition self)
              (_crack_front_point_index self) +
            _poissons_ratio self *
            getCrackFrontTangentialStrain (_crack_front_definition self)
              (_crack_front_point_index self)))).
Proof.
  eexists. eexists. split; [apply getValue_state|].
  split.
  - rewrite getValue_state. reflexivity.
  - intros T. split.
    + cbn. rewrite T. reflexivity.
    + rewrite getValue_state. unfold finalized. cbn.
      rewrite T. reflexivity.
Qed.

Lemma getValue_twice_witness :
  exists (self1 : InteractionIntegral),
    getValue [] (Demo.object3d 1 1) = Ok (1, self1, []) /\
    returned (getValue [] self1) = Ok 2.
Proof.
  destruct (getValue_twice (Demo.object3d 1 1) [] [])
    as (v1 & self1 & First & _ & Second).
  destruct (Second eq_refl) as [_ Twice].
  exists self1. split.
  - rewrite First. rewrite getValue_state in First.
    apply Ok_inj in First. injection First as <- _. reflexivity.
  - exact Twice.
Defined.

Lemma construct_members (parameters : InputParameters)
    (self : InteractionIntegral) :
  construct parameters = Ok self ->
  _crack_front_definition self = crack_front_definition parameters /\
  _treat_as_2d self = false /\
  _K_factor self = K_factor parameters /\
  _t_stress self = t_stress parameters /\
  _poissons_ratio self = poissons_ratio parameters /\
  _integral_value self = 0 /\
  _has_temp self = isCoupled_temp parameters /\
  _grad_temp self =
    (if isCoupled_temp parameters then coupledGradient temp else grad_zero_ref) /\
  _grad_disp_z self =
    (if Nat.eqb (mesh_dimension parameters) 3
     then coupledGradient disp_z else grad_zero_ref).
Proof.
  unfold construct.
  destruct (isCoupled_temp parameters &&
            match (if hasMaterialProperty_thermal_expansion_coef parameters
                   then RealProperty else NULL) with
            | NULL => true
            | RealProperty => false
            end); [discriminate|].
  destruct (QFunctionType_eqb (q_function_type parameters) TOPOLOGY);
    intros [= <-]; repeat split.
Qed.

(** X5.  The constructor sets [_treat_as_2d] to false and only
    [initialSetup] copies the crack front's answer into it, whereas the
    divisor of the integrand asks the crack front directly.  On a front
    treated as 2D, with the T-stress requested, [getValue] on an object
    whose [initialSetup] has not run therefore adds the T-stress term
    although the integrand is already divided by 1; after [initialSetup]
    the term is not added. *)
Theorem treat_as_2d_needs_initialSetup (parameters : InputParameters)
    (self : InteractionIntegral) (others : list Real) :
  construct parameters = Ok self ->
  treatAs2D (crack_front_definition parameters) = true ->
  t_stress parameters = true ->
  returned (getValue others self) =
    Ok (K_factor parameters *
        (gatherSum others 0 +
         poissons_ratio parameters *
         getCrackFrontTangentialStrain (crack_front_definition parameters)
           (_crack_front_point_index self))) /\
  returned (getValue others (initialSetup self)) =
    Ok (K_factor parameters * gatherSum others 0) /\
  (forall asm t2d q phi dphi qp v,
     ready (with_members self t2d q phi dphi qp v) asm = true ->
     exists l,
       computeQpIntegral_locals (with_members self t2d q phi dphi qp v) asm
         = Ok l /\
       q_avg_seg l = 1).
Proof.
  intros C T2 TS.
  destruct (construct_members parameters self C)
    as (Fc & Ft & Fk & Fts & Fp & Fv & _).
  split; [|split].
  - rewrite getValue_run, Ft, Fts, TS, Fk, Fp, Fc, Fv. reflexivity.
  - rewrite getValue_run.
    change (_treat_as_2d (initialSetup self))
      with (treatAs2D (_crack_front_definition self)).
    change (_K_factor (initialSetup self)) with (_K_factor self).
    change (_integral_value (initialSetup self)) with (_integral_value self).
    rewrite Fc, T2, andb_false_r, Fk, Fv. reflexivity.
  - intros asm t2d q phi dphi qp v R.
    exists (expected_locals (with_members self t2d q phi dphi qp v) asm).
    split; [exact (computeQpIntegral_locals_ready _ asm R)|].
    cbn [expected_locals q_avg_seg].
    change (_crack_front_definition (with_members self t2d q phi dphi qp v))
      with (_crack_front_definition self).
    rewrite Fc, T2. reflexivity.
Qed.

Lemma treat_as_2d_needs_initialSetup_witness :
  returned (getValue []
              (Demo.constructed (Demo.front true 0 0) None true GEOMETRY 1 true))
    = Ok 1 /\
  returned (getValue []
              (initialSetup
                 (Demo.constructed (Demo.front true 0 0) None true
                    GEOMETRY 1 true))) = Ok 0.
Proof.
  destruct (treat_as_2d_needs_initialSetup
              (Demo.params (Demo.front true 0 0) None true GEOMETRY 1 true)
              (Demo.constructed (Demo.front true 0 0) None true GEOMETRY 1 true)
              [] eq_refl eq_refl eq_refl) as (Before & After & _).
  split; [exact Before | exact After].
Defined.

(* ================================================================== *)
(** ** Passes *)

Section PassTrace.

Variable self : InteractionIntegral.
Hypothesis coef : coef_ok self = true.

Lemma elements_run_calls (elements : list Assembly) :
  forall (t2d : bool) (q : list Real) (phi : option (nat -> nat -> Real))
         (dphi : option (nat -> nat -> RealVectorValue)) (qp : nat) (v : Real),
  exists q' phi' dphi' qp',
    fold_right (fun asm rest => execute asm ;;; rest) (ret tt) elements
      (with_members self t2d q phi dphi qp v) =
    Ok (tt, with_members self t2d q' phi' dphi' qp' (raw_sum self elements v),
        List.concat (map (element_calls self) elements)).
Proof.
  induction elements as [|asm elements IH]; intros t2d q phi dphi qp v.
  - exists q, phi, dphi, qp. reflexivity.
  - cbn [fold_right].
    rewrite (bind_Ok _ _ _ _ _ _ (execute_run self coef asm t2d q phi dphi qp v)).
    destruct (IH t2d
                (map (perform (_crack_front_definition self))
                   (element_calls self asm))
                None None
                (qrule_n_points asm) (v + element_integral self asm))
      as (q' & phi' & dphi' & qp' & E).
    rewrite E. now exists q', phi', dphi', qp'.
Qed.

(** A whole pass: value, final object, generator calls. *)
Lemma evaluate_full_run (elements : list Assembly) (others : list Real) :
  exists q' phi' dphi' qp' total,
    evaluate elements others self =
    Ok (finalized self (gatherSum others (raw_sum self elements 0)),
        with_members self (_treat_as_2d self) q' phi' dphi' qp' total,
        List.concat (map (element_calls self) elements)).
Proof.
  unfold evaluate, initialize. rewrite bind_modify.
  change (set_integral_value 0 self)
    with (with_members self (_treat_as_2d self) (_q_curr_elem self)
            (_phi_curr_elem self) (_dphi_curr_elem self) (_qp self) 0).
  destruct (elements_run_calls elements (_treat_as_2d self) (_q_curr_elem self)
              (_phi_curr_elem self) (_dphi_curr_elem self) (_qp self) 0)
    as (q' & phi' & dphi' & qp' & E).
  rewrite (bind_Ok _ _ _ _ _ _ E), getValue_state, app_nil_r.
  now eexists q', phi', dphi', qp', _.
Qed.

End PassTrace.

(** X6.  A pass can be repeated: [initialize] clears what the previous
    pass and its [getValue] left in the accumulator, and every element
    rebuilds its transient members, so a pass started from the object an
    earlier pass has left behind returns what it returns from the object as
    it was before. *)
Theorem pass_is_repeatable (self : InteractionIntegral)
    (elements1 elements2 : list Assembly) (others1 others2 : list Real) :
  coef_ok self = true ->
  exists (v1 : Real) (self1 : InteractionIntegral) (calls1 : list QCall),
    evaluate elements1 others1 self = Ok (v1, self1, calls1) /\
    returned (evaluate elements2 others2 self1) =
    returned (evaluate elements2 others2 self) /\
    calls_made (evaluate elements2 others2 self1) =
    calls_made (evaluate elements2 others2 self).
Proof.
  intros coef.
  destruct (evaluate_full_run self coef elements1 others1)
    as (q' & phi' & dphi' & qp' & total & E1).
  eexists. eexists. eexists. split; [exact E1|].
  assert (coef1 : coef_ok (with_members self (_treat_as_2d self) q' phi' dphi'
                             qp' total) = true) by exact coef.
  destruct (evaluate_full_run _ coef1 elements2 others2)
    as (q2 & phi2 & dphi2 & qp2 & total2 & E2).
  destruct (evaluate_full_run self coef elements2 others2)
    as (q3 & phi3 & dphi3 & qp3 & total3 & E3).
  rewrite E2, E3. split; reflexivity.
Qed.

Lemma pass_is_repeatable_witness :
  exists (self1 : InteractionIntegral) (calls1 : list QCall),
    evaluate [Demo.thermal3] [] (Demo.object3d 1 1) = Ok (7, self1, calls1) /\
    returned (evaluate [Demo.thermal3; Demo.thermal3] [] self1) = Ok 13.
Proof.
  destruct (pass_is_repeatable (Demo.object3d 1 1)
              [Demo.thermal3] [Demo.thermal3; Demo.thermal3] [] [] eq_refl)
    as (v1 & self1 & calls1 & First & Again & _).
  exists self1, calls1. split.
  - rewrite First. f_equal. f_equal. f_equal.
    assert (V : returned (evaluate [Demo.thermal3] [] (Demo.object3d 1 1))
                = Ok 7) by (vm_compute; reflexivity).
    rewrite First in V. cbn in V. now apply Ok_inj in V.
  - rewrite Again. vm_compute. reflexivity.
Defined.

(** X7.  Over a pass the generators are invoked once per node of every
    element visited, in visiting order, with no value kept from one
    element to the next (a node shared by two elements is evaluated
    twice); [initialize] and [getValue] invoke none. *)
Theorem pass_generator_calls (self : InteractionIntegral)
    (elements : list Assembly) (others : list Real) :
  coef_ok self = true ->
  calls_made (evaluate elements others self) =
    List.concat (map (element_calls self) elements) /\
  List.length (calls_made (evaluate elements others self)) =
    list_sum (map (fun asm => n_nodes (_current_elem asm)) elements) /\
  calls_made (initialize self) = [] /\
  calls_made (getValue others self) = [].
Proof.
  intros coef.
  destruct (evaluate_full_run self coef elements others)
    as (q' & phi' & dphi' & qp' & total & E).
  rewrite E. cbn [calls_made].
  split; [reflexivity|]. split; [|split; [reflexivity|]].
  - clear E. induction elements as [|asm elements IH]; [reflexivity|].
    cbn [map List.concat list_sum fold_right]. rewrite length_app, IH.
    unfold element_calls at 1. now rewrite length_map, length_seq.
  - rewrite getValue_state. reflexivity.
Qed.

Lemma pass_generator_calls_witness :
  List.length
    (calls_made (evaluate [Demo.thermal3; Demo.mechanical] [] Demo.object2d))
  = 8%nat.
Proof.
  destruct (pass_generator_calls Demo.object2d [Demo.thermal3; Demo.mechanical]
              [] eq_refl) as (_ & Count & _).
  rewrite Count. reflexivity.
Defined.

(* ================================================================== *)
(** ** What the integrand does not read *)

(** X8.  On a mesh whose dimension is not 3 the constructor binds
    [_grad_disp_z] to the zero gradient: the integrand does not read the
    storage of the gradient of [disp_z], and row 2 of [grad_disp] is
    zero. *)
Theorem disp_z_unread_below_3d (parameters : InputParameters)
    (self : InteractionIntegral) (asm : Assembly)
    (t2d : bool) (q : list Real) (phi : option (nat -> nat -> Real))
    (dphi : option (nat -> nat -> RealVectorValue)) (qp : nat) (v : Real)
    (other_values : nat -> RealVectorValue) :
  construct parameters = Ok self ->
  mesh_dimension parameters <> 3%nat ->
  computeQpIntegral (with_members self t2d q phi dphi qp v)
    (with_disp_z_storage asm other_values) =
  computeQpIntegral (with_members self t2d q phi dphi qp v) asm /\
  forall l,
    computeQpIntegral_locals (with_members self t2d q phi dphi qp v) asm
      = Ok l ->
    forall j, cm_get (grad_disp l) 2 j = 0.
Proof.
  intros C D.
  destruct (construct_members parameters self C)
    as (_ & _ & _ & _ & _ & _ & _ & Hgt & Hgz).
  apply Nat.eqb_neq in D. rewrite D in Hgz.
  assert (Gt : _grad_temp self = coupledGradient temp \/
               _grad_temp self = grad_zero_ref)
    by (rewrite Hgt; destruct (isCoupled_temp parameters); auto).
  split.
  - unfold computeQpIntegral, computeQpIntegral_locals.
    change (_grad_disp_z (with_members self t2d q phi dphi qp v))
      with (_grad_disp_z self).
    change (_grad_temp (with_members self t2d q phi dphi qp v))
      with (_grad_temp self).
    rewrite Hgz. destruct Gt as [-> | ->]; reflexivity.
  - intros l. unfold computeQpIntegral_locals.
    change (_grad_disp_z (with_members self t2d q phi dphi qp v))
      with (_grad_disp_z self).
    rewrite Hgz.
    destruct phi as [phi|]; [|discriminate].
    destruct dphi as [dphi|]; [|discriminate].
    cbn [_phi_curr_elem _dphi_curr_elem with_members deref obind].
    destruct (at_quadrature_point asm _) as [qp'| |]; try discriminate.
    cbn [obind].
    destruct (fold_left _ _ _) as [[s g]| |]; try discriminate.
    cbn [obind].
    destruct (if _has_temp (with_members self t2d q (Some phi) (Some dphi) qp v)
              then _ else _) as [t4| |]; try discriminate.
    cbn [obind]. intros [= <-].
    intros [|[|[|j]]]; reflexivity.
Qed.

Lemma disp_z_unread_below_3d_witness :
  computeQpIntegral (in_element Demo.object2d Demo.mechanical 0)
    (with_disp_z_storage Demo.mechanical (fun _ => mkVec 7 7 7)) = Ok 1.
Proof.
  destruct (disp_z_unread_below_3d
              (Demo.params (Demo.front true 0 0) None false GEOMETRY 1 true)
              (Demo.constructed (Demo.front true 0 0) None false GEOMETRY 1 true)
              Demo.mechanical true
              (_q_curr_elem (in_element Demo.object2d Demo.mechanical 0))
              (Some (fe_get_phi Demo.mechanical))
              (Some (fe_get_dphi Demo.mechanical)) 0 0
              (fun _ => mkVec 7 7 7) eq_refl)
    as [Same _]; [discriminate|].
  exact (Same : computeQpIntegral _ _ = Ok 1).
Defined.

(** X9.  When temperature is not coupled the constructor binds
    [_grad_temp] to the zero gradient and the thermal term is skipped: the
    integrand reads neither the storage of the temperature gradient nor
    the thermal-expansion coefficient. *)
Theorem thermal_storage_unread_without_temp (parameters : InputParameters)
    (self : InteractionIntegral) (asm : Assembly)
    (t2d : bool) (q : list Real) (phi : option (nat -> nat -> Real))
    (dphi : option (nat -> nat -> RealVectorValue)) (qp : nat) (v : Real)
    (other_gradient : nat -> RealVectorValue) (other_coef : nat -> Real) :
  construct parameters = Ok self ->
  isCoupled_temp parameters = false ->
  computeQpIntegral (with_members self t2d q phi dphi qp v)
    (with_thermal_storage asm other_gradient other_coef) =
  computeQpIntegral (with_members self t2d q phi dphi qp v) asm.
Proof.
  intros C T.
  destruct (construct_members parameters self C)
    as (_ & _ & _ & _ & _ & _ & Hht & Hgt & Hgz).
  rewrite T in Hht, Hgt.
  unfold computeQpIntegral, computeQpIntegral_locals.
  change (_grad_disp_z (with_members self t2d q phi dphi qp v))
    with (_grad_disp_z self).
  change (_grad_temp (with_members self t2d q phi dphi qp v))
    with (_grad_temp self).
  change (_has_temp (with_members self t2d q phi dphi qp v))
    with (_has_temp self).
  rewrite Hht, Hgt, Hgz.
  destruct (Nat.eqb (mesh_dimension parameters) 3); reflexivity.
Qed.

Lemma thermal_storage_unread_without_temp_witness :
  computeQpIntegral
    (in_element (Demo.object (Demo.front true 0 0) None false GEOMETRY 1 false)
       Demo.mechanical 0)
    (with_thermal_storage Demo.mechanical (fun _ => mkVec 7 7 7) (fun _ => 7))
  = Ok 1.
Proof.
  exact (thermal_storage_unread_without_temp
           (Demo.params (Demo.front true 0 0) None false GEOMETRY 1 false)
           (Demo.constructed (Demo.front true 0 0) None false GEOMETRY 1 false)
           Demo.mechanical true
           (_q_curr_elem
              (in_element
                 (Demo.object (Demo.front true 0 0) None false GEOMETRY 1 false)
                 Demo.mechanical 0))
           (Some (fe_get_phi Demo.mechanical))
           (Some (fe_get_dphi Demo.mechanical)) 0 0
           (fun _ => mkVec 7 7 7) (fun _ => 7) eq_refl eq_refl
         : computeQpIntegral _ _ = Ok 1).
Defined.

(* ================================================================== *)
(** ** The interpolated gradient *)

Lemma vec_get_set_other (g : RealVectorValue) (i j : nat) (x : Real) :
  i <> j -> vec_get (vec_set g i x) j = vec_get g j.
Proof.
  intros N.
  destruct i as [|[|[|i]]], j as [|[|[|j]]]; try reflexivity;
    exfalso; apply N; reflexivity.
Qed.

Lemma gradient_row_keeps (f : RealVectorValue -> nat -> Real) (dims j : nat)
    (l : list nat) (g : RealVectorValue) :
  Forall (fun i => (i < dims)%nat) l -> (dims <= j)%nat ->
  vec_get (fold_left (fun g i => vec_set g i (f g i)) l g) j = vec_get g j.
Proof.
  intros Hl Hj. revert g. induction Hl as [|i l Hi _ IH]; intros g.
  - reflexivity.
  - cbn [fold_left]. rewrite IH. apply vec_get_set_other. lia.
Qed.

Lemma interpolated_grad_q_beyond_dim (dphi : nat -> nat -> RealVectorValue)
    (q : list Real) (nodes dims qp j : nat) :
  (dims <= j)%nat ->
  vec_get (Spec.interpolated_grad_q dphi q nodes dims qp) j = 0.
Proof.
  intros Hj. unfold Spec.interpolated_grad_q.
  assert (G : forall l g, vec_get g j = 0 ->
            vec_get
              (fold_left (fun g i =>
                 fold_left (fun g j0 =>
                   vec_set g j0
                     (vec_get g j0 + vec_get (dphi i qp) j0 * nth i q 0))
                   (seq 0 dims) g) l g) j = 0).
  { induction l as [|i l IH]; intros g Hg; [exact Hg|].
    cbn [fold_left]. apply IH.
    rewrite (gradient_row_keeps
               (fun g j0 => vec_get g j0 + vec_get (dphi i qp) j0 * nth i q 0)
               dims j (seq 0 dims) g (seq_below dims dims (Nat.le_refl _)) Hj).
    exact Hg. }
  apply G. destruct j as [|[|[|j]]]; reflexivity.
Qed.

(** X10.  The interpolation loop only writes the components of [grad_q]
    below the dimension of the element: for an element of dimension [d]
    every component [j >= d] of [grad_q] is exactly [0.0] when it is handed
    to the rotation, whatever the shape-function gradients hold there. *)
Theorem grad_q_zero_beyond_dim (self : InteractionIntegral) (asm : Assembly) :
  ready self asm = true ->
  exists l : QpLocals,
    computeQpIntegral_locals self asm = Ok l /\
    grad_q_cf l =
      rotateVectorToCrackFrontCoords (_crack_front_definition self)
        (grad_q l) (_crack_front_point_index self) /\
    forall j, (dim (_current_elem asm) <= j)%nat -> vec_get (grad_q l) j = 0.
Proof.
  intros R. exists (expected_locals self asm).
  split; [exact (computeQpIntegral_locals_ready self asm R)|].
  split; [reflexivity|].
  intros j Hj. cbn [expected_locals grad_q].
  apply interpolated_grad_q_beyond_dim. exact Hj.
Qed.

Lemma grad_q_zero_beyond_dim_witness :
  exists l : QpLocals,
    computeQpIntegral_locals
      (in_element Demo.object2d
         (Demo.element (mkVec 0 1 5) vec_zero vec_zero cm_zero 1) 0)
      (Demo.element (mkVec 0 1 5) vec_zero vec_zero cm_zero 1) = Ok l /\
    vec_get (grad_q l) 2 = 0.
Proof.
  destruct (grad_q_zero_beyond_dim
              (in_element Demo.object2d
                 (Demo.element (mkVec 0 1 5) vec_zero vec_zero cm_zero 1) 0)
              (Demo.element (mkVec 0 1 5) vec_zero vec_zero cm_zero 1) eq_refl)
    as (l & Hl & _ & Hz).
  exists l. split; [exact Hl|]. apply Hz. cbn. lia.
Defined.

(* ================================================================== *)
(** ** A NaN integrand *)

Lemma add_nan_r (x : Real) : x + nan = nan.
Proof.
  apply Prim2SF_inj. rewrite add_spec.
  change (Prim2SF nan) with S754_nan.
  destruct (Prim2SF x); reflexivity.
Qed.

Lemma add_nan_l (x : Real) : nan + x = nan.
Proof.
  apply Prim2SF_inj. rewrite add_spec.
  change (Prim2SF nan) with S754_nan. reflexivity.
Qed.

Lemma mul_nan_r (x : Real) : x * nan = nan.
Proof.
  apply Prim2SF_inj. rewrite mul_spec.
  change (Prim2SF nan) with S754_nan.
  destruct (Prim2SF x); reflexivity.
Qed.

Lemma sum_from_nan {A} (f : A -> Real) (l : list A) :
  fold_left (fun acc a => acc + f a) l nan = nan.
Proof.
  induction l as [|a l IH]; [reflexivity|].
  cbn [fold_left]. now rewrite add_nan_l.
Qed.

Lemma sum_with_nan {A} (f : A -> Real) (l : list A) (start : Real) (a : A) :
  In a l -> f a = nan -> fold_left (fun acc a => acc + f a) l start = nan.
Proof.
  revert start. induction l as [|b l IH]; intros start Hin Ha; [easy|].
  cbn [fold_left]. destruct Hin as [-> | Hin].
  - rewrite Ha, add_nan_r. apply sum_from_nan.
  - now apply IH.
Qed.

Lemma gatherSum_nan (others : list Real) : gatherSum others nan = nan.
Proof.
  unfold gatherSum. induction others as [|v others IH]; [reflexivity|].
  cbn [fold_left]. now rewrite add_nan_l.
Qed.

(** X11.  Nothing on the way from the integrand to the reported value
    looks at the numbers: if [computeQpIntegral] returns NaN at one
    quadrature point of one element, the element's integral, the reduced
    sum and the value [getValue] returns are all NaN, whatever the other
    elements and partitions contribute. *)
Theorem nan_integrand_poisons_pass (self : InteractionIntegral)
    (elements : list Assembly) (others : list Real) (asm : Assembly)
    (qp : nat) :
  coef_ok self = true ->
  In asm elements ->
  (qp < qrule_n_points asm)%nat ->
  computeQpIntegral (in_element self asm qp) asm = Ok nan ->
  returned (computeIntegral asm self) = Ok nan /\
  returned (evaluate elements others self) = Ok nan.
Proof.
  intros coef Hin Hqp Hnan.
  rewrite (computeQpIntegral_ready _ asm (in_element_ready self asm qp coef Hqp))
    in Hnan.
  apply Ok_inj in Hnan.
  assert (E : element_integral self asm = nan).
  { unfold element_integral.
    apply (sum_with_nan
             (fun qp => _JxW asm qp * _coord asm qp * integrand_at self asm qp)
             _ _ qp).
    - apply in_seq. lia.
    - unfold integrand_at. rewrite Hnan. apply mul_nan_r. }
  split.
  - rewrite (computeIntegral_returned self coef asm), E. reflexivity.
  - rewrite (evaluate_run self coef elements others). unfold finalized.
    assert (S : raw_sum self elements 0 = nan)
      by (exact (sum_with_nan (element_integral self) elements 0 asm Hin E)).
    rewrite S, gatherSum_nan.
    destruct (_t_stress self && negb (_treat_as_2d self));
      now rewrite ?add_nan_l, mul_nan_r.
Qed.

Lemma nan_integrand_poisons_pass_witness :
  returned (evaluate [Demo.thermal3; Demo.unloaded] [5] (Demo.object3d 0 0))
  = Ok nan.
Proof.
  refine (proj2 (nan_integrand_poisons_pass (Demo.object3d 0 0)
                   [Demo.thermal3; Demo.unloaded] [5] Demo.unloaded 0
                   eq_refl _ _ _)).
  - right. left. reflexivity.
  - cbn. lia.
  - vm_compute. reflexivity.
Defined.

(* ================================================================== *)
(** ** Inputs no member function reads *)

(** X12.  The value of [ring_first], the axis number given as
    [symmetry_plane] and the difference between an omitted
    [crack_front_point_index] and the index 0 have no effect: two sets of
    input parameters that differ in nothing else are both refused or both
    accepted by the constructor, and the two objects return the same value
    and invoke the generators with the same arguments in every pass. *)
Theorem unread_inputs_have_no_effect (p p' : InputParameters)
    (elements : list Assembly) (others : list Real) :
  differ_in_unread_inputs p p' ->
  (forall msg, construct p = MooseError msg <-> construct p' = MooseError msg) /\
  forall self self',
    construct p = Ok self -> construct p' = Ok self' ->
    returned (evaluate elements others (initialSetup self)) =
      returned (evaluate elements others (initialSetup self')) /\
    calls_made (evaluate elements others (initialSetup self)) =
      calls_made (evaluate elements others (initialSetup self')).
Proof.
  intros (Hc & Hi & Hk & Hs & Ht & Hp & Hr & Hq & Htemp & Hmat & Hdim).
  split.
  - intros msg. unfold construct.
    rewrite Htemp, Hmat, Hq.
    destruct (isCoupled_temp p' &&
              match (if hasMaterialProperty_thermal_expansion_coef p'
                     then RealProperty else NULL) with
              | NULL => true
              | RealProperty => false
              end); [reflexivity|].
    destruct (QFunctionType_eqb (q_function_type p') TOPOLOGY);
      split; discriminate.
  - intros self self' C C'.
    pose proof (construct_coef_ok p self C) as coef.
    pose proof (construct_coef_ok p' self' C') as coef'.
    destruct (evaluate_full_run _ coef elements others)
      as (q1 & phi1 & dphi1 & qp1 & total1 & E).
    destruct (evaluate_full_run _ coef' elements others)
      as (q2 & phi2 & dphi2 & qp2 & total2 & E').
    rewrite E, E'. cbn [returned calls_made obind].
    revert C C'. unfold construct.
    rewrite Htemp, Hmat, Hq, Hc, Hi, Hk, Hs, Ht, Hp, Hr, Hdim.
    destruct (isCoupled_temp p' &&
              match (if hasMaterialProperty_thermal_expansion_coef p'
                     then RealProperty else NULL) with
              | NULL => true
              | RealProperty => false
              end); [discriminate|].
    destruct (QFunctionType_eqb (q_function_type p') TOPOLOGY);
      intros [= <-] [= <-]; split; reflexivity.
Qed.

Lemma unread_inputs_have_no_effect_witness :
  returned (evaluate [Demo.mechanical] []
              (Demo.object (Demo.front true 0 0) (Some 2%Z) false TOPOLOGY 1 true))
  = Ok 4.
Proof.
  assert (D : differ_in_unread_inputs
                {| crack_front_definition := Demo.front true 0 0;
                   crack_front_point_index := None;
                   K_factor := 2;
                   symmetry_plane := Some 7%Z;
                   t_stress := false;
                   poissons_ratio := 0.5;
                   ring_index := 1%Z;
                   ring_first := 9%Z;
                   q_function_type := TOPOLOGY;
                   isCoupled_temp := true;
                   hasMaterialProperty_thermal_expansion_coef := true;
                   mesh_dimension := 2 |}
                (Demo.params (Demo.front true 0 0) (Some 2%Z) false TOPOLOGY 1
                   true))
    by (repeat split).
  destruct (unread_inputs_have_no_effect _ _ [Demo.mechanical] [] D)
    as [_ Same].
  destruct (Same _ _ eq_refl eq_refl) as [Value _].
  refine (eq_trans (eq_sym Value) _). vm_compute. reflexivity.
Defined.
